(** * MQ2Nav mesh generator: the convex volume tool

    A shallow embedding of [meshgen/ConvexVolumeTool.cpp]: the gift-wrapping
    convex hull, the crossing-number point-in-polygon test, and the editing
    session ([ConvexVolumeToolState]) with the tool that drives it
    ([ConvexVolumeTool]).

    Conventions of the embedding.
    - A C++ [float] is an IEEE-754 binary32 value: [spec_float] with
      precision 24 and maximal exponent 128, every operation rounding to
      nearest even.  Expressions are evaluated in single precision, one
      rounding per operation, in the order the source writes them.
    - [std::vector] is [list]; an index ([uint32_t], [size_t]) is a [nat]
      (vector sizes stay far below [2^32]).
    - The loop of [convexhull] has no bound in the source; it is run with
      fuel, and [None] means that the fuel was used up.
    - The navigation mesh, the polygon offsetter of Recast and the helpers
      of [common/Utilities.h] are not part of the translated file; they
      are modelled at their interface and marked where they are declared. *)

From Stdlib Require Import ZArith NArith List Bool Lia PeanoNat Ascii.
From Stdlib Require Import Floats.SpecFloat.
Import ListNotations.

(** ** Single-precision floats *)

Module F32.

Definition prec : Z := 24.
Definition emax : Z := 128.

Definition float : Type := spec_float.

Definition add : float -> float -> float := SFadd prec emax.
Definition sub : float -> float -> float := SFsub prec emax.
Definition mul : float -> float -> float := SFmul prec emax.
Definition div : float -> float -> float := SFdiv prec emax.

(** [a < b], [a <= b], [a > b], [a >= b] of C++: all false on a NaN. *)
Definition lt (a b : float) : bool := SFltb a b.
Definition le (a b : float) : bool := SFleb a b.
Definition gt (a b : float) : bool := SFltb b a.
Definition ge (a b : float) : bool := SFleb b a.

(** [glm::min(x, y)] is [(y < x) ? y : x]. *)
Definition min (x y : float) : float := if lt y x then y else x.

(** The float of an integer (rounded when it does not fit). *)
Definition of_Z (z : Z) : float := binary_normalize prec emax z 0 false.

Definition zero : float := S754_zero false.

(** [FLT_MAX], [(2^24 - 1) * 2^104]. *)
Definition FLT_MAX : float := S754_finite false 16777215 104.

(** The literal [0.01f], [10737418 * 2^-30]. *)
Definition c0_01 : float := S754_finite false 10737418 (-30).

(** The literal [0.2f], [13421773 * 2^-26]. *)
Definition c0_2 : float := S754_finite false 13421773 (-26).

(** The literal [0.1f], [13421773 * 2^-27]. *)
Definition c0_1 : float := S754_finite false 13421773 (-27).

(** A value a [float] variable can hold: a canonical binary32. *)
Definition valid (x : float) : bool := valid_binary prec emax x.

(** Neither a NaN nor an infinity. *)
Definition finite (x : float) : bool :=
  match x with
  | S754_zero _ | S754_finite _ _ _ => true
  | _ => false
  end.

Definition not_nan (x : float) : Prop := x <> S754_nan.

(** A zero of either sign, or a NaN. *)
Definition is_zero_or_nan (x : float) : bool :=
  match x with
  | S754_zero _ | S754_nan => true
  | _ => false
  end.

End F32.

(** ** Points *)

(** [glm::vec3]; index 0, 1, 2 of the source is [x], [y], [z]. *)
Record vec3 : Type :=
  mkVec3 { vx : F32.float; vy : F32.float; vz : F32.float }.

Definition vec3_zero : vec3 := mkVec3 F32.zero F32.zero F32.zero.

(** [v[i]] for an index the vector has; the vectors of the source are only
    read at indices below their size (see [convexhull_indices_in_range]). *)
Definition at_ (v : list vec3) (i : nat) : vec3 := nth i v vec3_zero.

(** Modelled from the spec: [left] of [common/Utilities.h], which is not
    among the translated sources.  "Strictly to the left of the directed
    edge from [a] to [b]", on the horizontal ([x], [z]) projection. *)
Definition left (a b c : vec3) : bool :=
  let u1 := F32.sub (vx b) (vx a) in
  let v1 := F32.sub (vz b) (vz a) in
  let u2 := F32.sub (vx c) (vx a) in
  let v2 := F32.sub (vz c) (vz a) in
  F32.lt (F32.sub (F32.mul u1 v2) (F32.mul v1 u2)) F32.zero.

(** Modelled from the spec: [cmppt] of [common/Utilities.h], which is not
    among the translated sources.  "Lowest under a fixed 2D ordering:
    smallest horizontal-axis coordinate, tie-broken by the other
    horizontal axis". *)
Definition cmppt (a b : vec3) : bool :=
  if F32.lt (vx a) (vx b) then true
  else if F32.gt (vx a) (vx b) then false
  else if F32.lt (vz a) (vz b) then true
  else if F32.gt (vz a) (vz b) then false
  else false.

(** ** [convexhull] *)

(** [for (i = 1; i < pts.size(); ++i) if (cmppt(pts[i], pts[hull])) hull = i;]
    started at [hull = 0]. *)
Definition lowerLeft (pts : list vec3) : nat :=
  fold_left
    (fun hull i => if cmppt (at_ pts i) (at_ pts hull) then i else hull)
    (seq 1 (length pts - 1)) 0.

(** [endpt = 0; for (j = 1; j < pts.size(); ++j)
      if (hull == endpt || left(pts[hull], pts[endpt], pts[j])) endpt = j;] *)
Definition nextPoint (pts : list vec3) (hull : nat) : nat :=
  fold_left
    (fun endpt j =>
       if (hull =? endpt) || left (at_ pts hull) (at_ pts endpt) (at_ pts j)
       then j else endpt)
    (seq 1 (length pts - 1)) 0.

(** The [do ... while (endpt != out[0])] loop. *)
Fixpoint giftWrap (fuel : nat) (pts : list vec3) (hull : nat) (out : list nat)
  : option (list nat) :=
  match fuel with
  | O => None
  | S fuel' =>
      let out' := out ++ [hull] in
      let endpt := nextPoint pts hull in
      if endpt =? nth 0 out' 0 then Some out'
      else giftWrap fuel' pts endpt out'
  end.

Definition convexhull (fuel : nat) (pts : list vec3) : option (list nat) :=
  giftWrap fuel pts (lowerLeft pts) [].

(** ** [pointInPoly] *)

(** The condition of the loop body for the edge from [vj] to [vi]. *)
Definition crosses (vi vj p : vec3) : bool :=
  negb (Bool.eqb (F32.gt (vz vi) (vz p)) (F32.gt (vz vj) (vz p)))
  && F32.lt (vx p)
       (F32.add
          (F32.div
             (F32.mul (F32.sub (vx vj) (vx vi)) (F32.sub (vz p) (vz vi)))
             (F32.sub (vz vj) (vz vi)))
          (vx vi)).

(** [for (i = 0, j = verts.size() - 1; i < verts.size(); j = i++)]: the
    index [j] that goes with [i]. *)
Definition prevIndex (n i : nat) : nat :=
  match i with O => n - 1 | S i' => i' end.

Definition pointInPoly (verts : list vec3) (p : vec3) : bool :=
  fold_left
    (fun c i =>
       if crosses (at_ verts i) (at_ verts (prevIndex (length verts) i)) p
       then negb c else c)
    (seq 0 (length verts)) false.

(** ** Volumes and the navigation mesh *)

(** [ConvexVolume]: [id] is a [uint32_t], [areaType] a [uint8_t], [name] a
    [std::string]. *)
Record ConvexVolume : Type := mkVolume {
  id : N;
  name : list ascii;
  verts : list vec3;
  areaType : N;
  hmin : F32.float;
  hmax : F32.float
}.

(** Modelled from the spec: a value-initialised volume, [ConvexVolume{}];
    the struct is declared in a header that is not among the translated
    sources.  Id 0 means "no volume". *)
Definition ConvexVolume_empty : ConvexVolume :=
  mkVolume 0 [] [] 0 F32.zero F32.zero.

Definition dtTileRef : Type := N.

(** Modelled from the spec: the volume registry of [NavMesh], which is not
    among the translated sources.  It owns the volumes in insertion
    order. *)
Record NavMesh : Type := mkNavMesh { m_volumes : list ConvexVolume }.

Definition GetConvexVolume (nm : NavMesh) (i : nat) : option ConvexVolume :=
  nth_error (m_volumes nm) i.

Definition GetConvexVolumeById (nm : NavMesh) (i : N) : option ConvexVolume :=
  find (fun v => N.eqb (id v) i) (m_volumes nm).

(** Modelled from the spec: "assigns a fresh non-zero id". *)
Definition freshId (vols : list ConvexVolume) : N :=
  N.succ (fold_right (fun v m => N.max (id v) m) 0%N vols).

(** Modelled from the spec: [Registry.Add], returning the new volume. *)
Definition AddConvexVolume (nm : NavMesh) (vs : list vec3) (nam : list ascii)
    (minh maxh : F32.float) (area : N) : ConvexVolume * NavMesh :=
  let v := mkVolume (freshId (m_volumes nm)) nam vs area minh maxh in
  (v, mkNavMesh (m_volumes nm ++ [v])).

Fixpoint removeFirstById (i : N) (vols : list ConvexVolume)
  : list ConvexVolume :=
  match vols with
  | [] => []
  | v :: rest => if N.eqb (id v) i then rest else v :: removeFirstById i rest
  end.

(** Modelled from the spec: [Registry.DeleteById], "no-op if id not found". *)
Definition DeleteConvexVolumeById (nm : NavMesh) (i : N) : NavMesh :=
  mkNavMesh (removeFirstById i (m_volumes nm)).

(** Writing the fields of the edit buffer back onto the stored volume
    ([vol->areaType = ...] and so on, through the pointer that
    [GetConvexVolumeById] returns). *)
Fixpoint updateFirstById (i : N) (e : ConvexVolume) (vols : list ConvexVolume)
  : list ConvexVolume :=
  match vols with
  | [] => []
  | v :: rest =>
      if N.eqb (id v) i
      then mkVolume (id v) (name e) (verts e) (areaType e) (hmin e) (hmax e)
           :: rest
      else v :: updateFirstById i e rest
  end.

(** ** The editing session: [ConvexVolumeToolState] *)

Record ConvexVolumeToolState : Type := mkState {
  m_pts : list vec3;
  m_hull : list nat;
  m_currentVolumeId : N;
  m_modified : bool;
  m_editVolume : ConvexVolume;
  m_name : list ascii;          (* char m_name[256] *)
  m_areaType : N;
  m_polyOffset : F32.float;
  m_boxHeight : F32.float;
  m_boxDescent : F32.float
}.

Definition NUL : ascii := Ascii.zero.

(** The C string a [char] buffer holds: the characters before the first
    NUL. *)
Fixpoint c_str (buf : list ascii) : list ascii :=
  match buf with
  | [] => []
  | c :: rest => if Ascii.eqb c NUL then [] else c :: c_str rest
  end.

(** [buf[0] = 0]. *)
Definition terminateAtStart (buf : list ascii) : list ascii :=
  match buf with
  | [] => []
  | _ :: rest => NUL :: rest
  end.

(** [ConvexVolumeToolState::reset]. *)
Definition reset (s : ConvexVolumeToolState) : ConvexVolumeToolState :=
  mkState [] [] 0 false ConvexVolume_empty (terminateAtStart (m_name s))
          (m_areaType s) (m_polyOffset s) (m_boxHeight s) (m_boxDescent s).

(** [std::vector::resize] on a vector of points. *)
Definition resize (n : nat) (v : list vec3) : list vec3 :=
  firstn n v ++ repeat vec3_zero (n - length v).

(** The height extent of a new shape: [minh = FLT_MAX], then
    [minh = glm::min(minh, verts[i].y)] over the vertices. *)
Definition minHeight (vs : list vec3) : F32.float :=
  fold_left (fun minh v => F32.min minh (vy v)) vs F32.FLT_MAX.

(** [verts[i] = m_pts[m_hull[i]]]: the points of the hull, in hull order. *)
Definition hullVerts (s : ConvexVolumeToolState) : list vec3 :=
  map (at_ (m_pts s)) (m_hull s).

Section Session.

(** [GetTilesIntersectingConvexVolume] of the navigation mesh: the tiles a
    stored volume overlaps.  The mesh is outside the translated sources;
    the session only passes its answer on. *)
Variable GetTilesIntersectingConvexVolume : NavMesh -> N -> list dtTileRef.

(** [rcOffsetPoly] of Recast: from the polygon, the offset and the capacity
    of the output buffer, the number it returns and the output buffer as
    it leaves it. *)
Variable rcOffsetPoly : list vec3 -> F32.float -> nat -> Z * list vec3.

(** [distSqr] of [common/Utilities.h]: the squared distance of two
    points. *)
Variable distSqr : vec3 -> vec3 -> F32.float.

(** [rcSqr(0.2f)]. *)
Definition closeTolerance : F32.float := F32.mul F32.c0_2 F32.c0_2.

(** [ConvexVolumeToolState::CreateShape]: the new session, the new mesh
    and the tiles to rebuild. *)
Definition CreateShape (s : ConvexVolumeToolState) (nm : NavMesh)
  : ConvexVolumeToolState * NavMesh * list dtTileRef :=
  if 2 <? length (m_hull s) then
    let vs := hullVerts s in
    let minh := F32.sub (minHeight vs) (m_boxDescent s) in
    let maxh := F32.add minh (m_boxHeight s) in
    if F32.gt (m_polyOffset s) F32.c0_01 then
      let '(noffset, offset) :=
        rcOffsetPoly vs (m_polyOffset s) (length vs * 2 + 1) in
      if (0 <? noffset)%Z then
        let '(volume, nm') :=
          AddConvexVolume nm (resize (Z.to_nat noffset) offset)
            (c_str (m_name s)) minh maxh (m_areaType s) in
        (reset s, nm', GetTilesIntersectingConvexVolume nm' (id volume))
      else (reset s, nm, [])
    else
      let '(volume, nm') :=
        AddConvexVolume nm vs (c_str (m_name s)) minh maxh (m_areaType s) in
      (reset s, nm', GetTilesIntersectingConvexVolume nm' (id volume))
  else (reset s, nm, []).

(** The session with new contents of [m_pts] and [m_hull]. *)
Definition withBuffers (pts : list vec3) (hull : list nat)
    (s : ConvexVolumeToolState) : ConvexVolumeToolState :=
  mkState pts hull (m_currentVolumeId s) (m_modified s) (m_editVolume s)
    (m_name s) (m_areaType s) (m_polyOffset s) (m_boxHeight s)
    (m_boxDescent s).

(** The test of the delete loop for one volume. *)
Definition hit (p : vec3) (vol : ConvexVolume) : bool :=
  pointInPoly (verts vol) p && F32.ge (vy p) (hmin vol)
  && F32.le (vy p) (hmax vol).

(** The delete loop: [nearestIndex], [None] for the [-1] it starts
    with.  [i] is the index of the head of [vols]. *)
Fixpoint findHit (p : vec3) (vols : list ConvexVolume) (i : nat)
  : option nat :=
  match vols with
  | [] => None
  | vol :: rest => if hit p vol then Some i else findHit p rest (S i)
  end.

(** [ConvexVolumeToolState::handleVolumeClick]; [alt] is
    [(SDL_GetModState() & KMOD_ALT) != 0]. *)
Definition handleVolumeClick (fuel : nat) (p : vec3) (shift alt : bool)
    (s : ConvexVolumeToolState) (nm : NavMesh)
  : option (ConvexVolumeToolState * NavMesh * list dtTileRef) :=
  if shift then
    match findHit p (m_volumes nm) 0 with
    | Some nearestIndex =>
        match GetConvexVolume nm nearestIndex with
        | Some volume =>
            Some (s, DeleteConvexVolumeById nm (id volume),
                  GetTilesIntersectingConvexVolume nm (id volume))
        | None => Some (s, nm, [])
        end
    | None => Some (s, nm, [])
    end
  else
    if (0 <? length (m_pts s))
       && (alt || F32.lt (distSqr p (last (m_pts s) vec3_zero))
                         closeTolerance)
    then Some (CreateShape s nm)
    else
      let pts := m_pts s ++ [p] in
      if 2 <=? length pts then
        match convexhull fuel pts with
        | Some hull => Some (withBuffers pts hull s, nm, [])
        | None => None
        end
      else Some (withBuffers pts [] s, nm, []).

End Session.

(** ** The tool: [ConvexVolumeTool] *)

(** The tool with what it acts on: its session ([m_state]), its [m_editing]
    flag, the navigation mesh, and the requests it has sent to
    [NavMeshTool::RebuildTiles], oldest first. *)
Record World : Type := mkWorld {
  w_state : ConvexVolumeToolState;
  w_editing : bool;
  w_navMesh : NavMesh;
  w_rebuilt : list (list dtTileRef)
}.

(** [if (!modifiedTiles.empty()) m_meshTool->RebuildTiles(modifiedTiles);] *)
Definition rebuildTiles (tiles : list dtTileRef) (log : list (list dtTileRef))
  : list (list dtTileRef) :=
  match tiles with
  | [] => log
  | _ :: _ => log ++ [tiles]
  end.

(** What the operator does to the widgets of [handleMenu] in one frame. *)
Inductive MenuEvent : Type :=
| ClickVolume (row : nat)            (* a row of the volume list *)
| ClickCreateNew
| ClickDelete
| InputName (buf : list ascii)       (* "Name" of a new volume *)
| PickAreaType (a : N)
| SlideBoxHeight (h : F32.float)
| SlideBoxDescent (d : F32.float)
| SlidePolyOffset (o : F32.float)
| ClickCreateVolume
| ClickCancel
| InputVolumeName (n : list ascii)   (* "Name" of the selected volume *)
| PickVolumeAreaType (a : N)
| InputVolumeHmin (h : F32.float)
| InputVolumeHmax (h : F32.float)
| ClickSaveChanges.

Section Tool.

Variable GetTilesIntersectingConvexVolume : NavMesh -> N -> list dtTileRef.
Variable rcOffsetPoly : list vec3 -> F32.float -> nat -> Z * list vec3.
Variable distSqr : vec3 -> vec3 -> F32.float.

(** [ConvexVolumeTool::reset]. *)
Definition toolReset (w : World) : World :=
  mkWorld (w_state w) false (w_navMesh w) (w_rebuilt w).

(** [ConvexVolumeTool::handleClick], on a tool that was initialised
    ([m_meshTool] is set). *)
Definition handleClick (fuel : nat) (p : vec3) (shift alt : bool) (w : World)
  : option World :=
  let editing :=
    if N.eqb (m_currentVolumeId (w_state w)) 0 then true else w_editing w in
  if negb editing then
    Some (mkWorld (w_state w) editing (w_navMesh w) (w_rebuilt w))
  else
    match handleVolumeClick GetTilesIntersectingConvexVolume rcOffsetPoly
            distSqr fuel p shift alt (w_state w) (w_navMesh w) with
    | Some (s', nm', modifiedTiles) =>
        Some (mkWorld s' editing nm' (rebuildTiles modifiedTiles (w_rebuilt w)))
    | None => None
    end.

Definition withState (w : World) (s : ConvexVolumeToolState) : World :=
  mkWorld s (w_editing w) (w_navMesh w) (w_rebuilt w).

(** [m_editVolume = *volume; m_currentVolumeId = volume->id;] *)
Definition loadVolume (volume : ConvexVolume) (s : ConvexVolumeToolState)
  : ConvexVolumeToolState :=
  mkState (m_pts s) (m_hull s) (id volume) (m_modified s) volume
    (m_name s) (m_areaType s) (m_polyOffset s) (m_boxHeight s)
    (m_boxDescent s).

(** [ConvexVolumeTool::handleMenu] on a loaded navigation mesh, by the
    widget that reports an interaction; a widget that is not shown in the
    current mode reports none. *)
Definition handleMenu (ev : MenuEvent) (w : World) : World :=
  let s := w_state w in
  let nm := w_navMesh w in
  let creating := w_editing w in
  let editingVolume :=
    negb (w_editing w) && negb (N.eqb (m_currentVolumeId s) 0) in
  match ev with
  | ClickVolume row =>
      match GetConvexVolume nm row with
      | Some volume =>
          (* [Selectable] flips [selected] *)
          let selected := negb (N.eqb (m_currentVolumeId s) (id volume)) in
          if selected then
            mkWorld (loadVolume volume (reset s)) false nm (w_rebuilt w)
          else w
      | None => w
      end
  | ClickCreateNew => mkWorld (reset s) true nm (w_rebuilt w)
  | ClickDelete =>
      if editingVolume then
        let modifiedTiles :=
          GetTilesIntersectingConvexVolume nm (m_currentVolumeId s) in
        mkWorld
          (mkState (m_pts s) (m_hull s) 0 (m_modified s) (m_editVolume s)
             (m_name s) (m_areaType s) (m_polyOffset s) (m_boxHeight s)
             (m_boxDescent s))
          (w_editing w)
          (DeleteConvexVolumeById nm (m_currentVolumeId s))
          (rebuildTiles modifiedTiles (w_rebuilt w))
      else w
  | InputName buf =>
      if creating then
        withState w
          (mkState (m_pts s) (m_hull s) (m_currentVolumeId s) (m_modified s)
             (m_editVolume s) buf (m_areaType s) (m_polyOffset s)
             (m_boxHeight s) (m_boxDescent s))
      else w
  | PickAreaType a =>
      if creating then
        withState w
          (mkState (m_pts s) (m_hull s) (m_currentVolumeId s) (m_modified s)
             (m_editVolume s) (m_name s) a (m_polyOffset s)
             (m_boxHeight s) (m_boxDescent s))
      else w
  | SlideBoxHeight h =>
      if creating then
        withState w
          (mkState (m_pts s) (m_hull s) (m_currentVolumeId s) (m_modified s)
             (m_editVolume s) (m_name s) (m_areaType s) (m_polyOffset s)
             h (m_boxDescent s))
      else w
  | SlideBoxDescent d =>
      if creating then
        withState w
          (mkState (m_pts s) (m_hull s) (m_currentVolumeId s) (m_modified s)
             (m_editVolume s) (m_name s) (m_areaType s) (m_polyOffset s)
             (m_boxHeight s) d)
      else w
  | SlidePolyOffset o =>
      if creating then
        withState w
          (mkState (m_pts s) (m_hull s) (m_currentVolumeId s) (m_modified s)
             (m_editVolume s) (m_name s) (m_areaType s) o
             (m_boxHeight s) (m_boxDescent s))
      else w
  | ClickCreateVolume =>
      if creating && (2 <? length (m_hull s)) then
        let '(s', nm', modifiedTiles) :=
          CreateShape GetTilesIntersectingConvexVolume rcOffsetPoly s nm in
        mkWorld s' false nm' (rebuildTiles modifiedTiles (w_rebuilt w))
      else w
  | ClickCancel =>
      if creating then mkWorld (reset s) false nm (w_rebuilt w) else w
  | InputVolumeName n =>
      if editingVolume then
        let e := m_editVolume s in
        withState w
          (mkState (m_pts s) (m_hull s) (m_currentVolumeId s) true
             (mkVolume (id e) n (verts e) (areaType e) (hmin e) (hmax e))
             (m_name s) (m_areaType s) (m_polyOffset s) (m_boxHeight s)
             (m_boxDescent s))
      else w
  | PickVolumeAreaType a =>
      if editingVolume then
        let e := m_editVolume s in
        withState w
          (mkState (m_pts s) (m_hull s) (m_currentVolumeId s) true
             (mkVolume (id e) (name e) (verts e) a (hmin e) (hmax e))
             (m_name s) (m_areaType s) (m_polyOffset s) (m_boxHeight s)
             (m_boxDescent s))
      else w
  | InputVolumeHmin h =>
      if editingVolume then
        let e := m_editVolume s in
        withState w
          (mkState (m_pts s) (m_hull s) (m_currentVolumeId s) true
             (mkVolume (id e) (name e) (verts e) (areaType e) h (hmax e))
             (m_name s) (m_areaType s) (m_polyOffset s) (m_boxHeight s)
             (m_boxDescent s))
      else w
  | InputVolumeHmax h =>
      if editingVolume then
        let e := m_editVolume s in
        withState w
          (mkState (m_pts s) (m_hull s) (m_currentVolumeId s) true
             (mkVolume (id e) (name e) (verts e) (areaType e) (hmin e) h)
             (m_name s) (m_areaType s) (m_polyOffset s) (m_boxHeight s)
             (m_boxDescent s))
      else w
  | ClickSaveChanges =>
      if editingVolume && m_modified s then
        match GetConvexVolumeById nm (m_currentVolumeId s) with
        | Some vol =>
            mkWorld s (w_editing w)
              (mkNavMesh
                 (updateFirstById (m_currentVolumeId s) (m_editVolume s)
                    (m_volumes nm)))
              (rebuildTiles
                 (GetTilesIntersectingConvexVolume
                    (mkNavMesh
                       (updateFirstById (m_currentVolumeId s)
                          (m_editVolume s) (m_volumes nm)))
                    (id vol))
                 (w_rebuilt w))
        | None => w
        end
      else w
  end.

(** One thing that happens to the tool. *)
Inductive Op : Type :=
| Menu (ev : MenuEvent)
| Click (p : vec3) (shift alt : bool)
| ToolReset.

(** [step w op w']: [op] on [w] returns and leaves [w']. *)
Inductive step : World -> Op -> World -> Prop :=
| step_menu w ev : step w (Menu ev) (handleMenu ev w)
| step_click w p shift alt fuel w' :
    handleClick fuel p shift alt w = Some w' ->
    step w (Click p shift alt) w'
| step_reset w : step w ToolReset (toolReset w).

(** A new session: [m_currentVolumeId] is 0 and the buffers are empty;
    the shape parameters and the mesh are whatever they are. *)
Definition initial (w : World) : Prop :=
  m_pts (w_state w) = [] /\ m_hull (w_state w) = []
  /\ m_currentVolumeId (w_state w) = 0%N.

Inductive reachable : World -> Prop :=
| reach_initial w : initial w -> reachable w
| reach_step w op w' : reachable w -> step w op w' -> reachable w'.

End Tool.

(** ** The bookkeeping of a session *)

(** The bookkeeping of a session: a selected volume excludes both the
    creation mode and collected points, and the hull buffer is the hull
    of the points (empty below two points). *)
Record session_inv (w : World) : Prop := mkSessionInv {
  inv_selected :
    m_currentVolumeId (w_state w) <> 0%N ->
    w_editing w = false /\ m_pts (w_state w) = []
    /\ m_hull (w_state w) = [];
  inv_no_hull :
    length (m_pts (w_state w)) < 2 -> m_hull (w_state w) = [];
  inv_hull :
    2 <= length (m_pts (w_state w)) ->
    exists fuel,
      convexhull fuel (m_pts (w_state w)) = Some (m_hull (w_state w))
}.

(** ** The crossing number *)

(** The crossing-number test in the words of the specification: the number
    of polygon edges that a horizontal ray from the query point crosses;
    the edge that ends in vertex [i] starts in the vertex before it (the
    last one for [i = 0]). *)
Definition edgeCrossed (vs : list vec3) (p : vec3) (i : nat) : bool :=
  crosses (at_ vs i) (at_ vs (prevIndex (length vs) i)) p.

Definition crossingNumber (vs : list vec3) (p : vec3) : nat :=
  length (filter (edgeCrossed vs p) (seq 0 (length vs))).

(** ** Sample collaborators and points *)

(** The point with integer coordinates [(x, y, z)]. *)
Definition pointZ (x y z : Z) : vec3 :=
  mkVec3 (F32.of_Z x) (F32.of_Z y) (F32.of_Z z).

(** Modelled from the spec: [distSqr] of [common/Utilities.h], which is not
    among the translated sources: the squared distance of two points,
    [dot(d, d)] for [d = a - b]. *)
Definition distSqr3 (a b : vec3) : F32.float :=
  let dx := F32.sub (vx a) (vx b) in
  let dy := F32.sub (vy a) (vy b) in
  let dz := F32.sub (vz a) (vz b) in
  F32.add (F32.add (F32.mul dx dx) (F32.mul dy dy)) (F32.mul dz dz).

(** An offsetter on a polygon it cannot offset: it returns 0 and leaves the
    output buffer as it was handed over. *)
Definition offsetFails (vs : list vec3) (offset : F32.float) (maxOut : nat)
  : Z * list vec3 :=
  (0%Z, repeat vec3_zero maxOut).

(** A mesh on which a volume overlaps the one tile that has its id. *)
Definition tileOfVolume (nm : NavMesh) (i : N) : list dtTileRef := [i].

(** A mesh on which no volume overlaps a tile. *)
Definition noTiles (nm : NavMesh) (i : N) : list dtTileRef := [].

(** ** Sample sessions and volumes *)

(** A new session with the parameters of the square scenario: height 5,
    no descent, no offset, an empty name. *)
Definition freshState : ConvexVolumeToolState :=
  mkState [] [] 0 false ConvexVolume_empty (repeat NUL 256) 0
    F32.zero (F32.of_Z 5) F32.zero.

Definition freshWorld : World := mkWorld freshState false (mkNavMesh []) [].

(** Three points on one line, the leftmost picked last. *)
Definition colinear3 : list vec3 :=
  [pointZ 1 0 0; pointZ 2 0 0; pointZ 0 0 0].

(** The session after the first two of them were picked. *)
Definition twoPicked : World :=
  mkWorld (withBuffers [pointZ 1 0 0; pointZ 2 0 0] [0; 1] freshState)
    true (mkNavMesh []) [].

(** The four corners of the square scenario, picked in order. *)
Definition squarePoints : list vec3 :=
  [pointZ 0 0 0; pointZ 10 0 0; pointZ 10 0 10; pointZ 0 0 10].

Definition squarePicked : ConvexVolumeToolState :=
  withBuffers squarePoints [0; 1; 2; 3] freshState.

(** The same session with a poly offset of 1. *)
Definition squarePickedOffset : ConvexVolumeToolState :=
  mkState squarePoints [0; 1; 2; 3] 0 false ConvexVolume_empty
    (repeat NUL 256) 0 (F32.of_Z 1) (F32.of_Z 5) F32.zero.

(** The volume that the commit of the picked square creates. *)
Definition squareVolume : ConvexVolume :=
  mkVolume 1 [] squarePoints 0 F32.zero (F32.of_Z 5).

(** A larger square around the square of the scenario, at the same
    heights. *)
Definition outerVolume : ConvexVolume :=
  mkVolume 2 []
    [pointZ (-10) 0 (-10); pointZ 20 0 (-10); pointZ 20 0 20;
     pointZ (-10) 0 20]
    0 F32.zero (F32.of_Z 5).

(** A mesh that lists the larger volume before the smaller one. *)
Definition nestedMesh : NavMesh := mkNavMesh [outerVolume; squareVolume].

(** A new session over a mesh that holds the square volume, and the same
    after the volume was selected in the list. *)
Definition squareWorld : World :=
  mkWorld freshState false (mkNavMesh [squareVolume]) [].

Definition selectedWorld : World :=
  mkWorld (loadVolume squareVolume (reset freshState)) false
    (mkNavMesh [squareVolume]) [].

(** The picked square while the tool is in creation mode. *)
Definition squareEditing : World :=
  mkWorld squarePickedOffset true (mkNavMesh [squareVolume]) [].

(** ** Drawing the session: [ConvexVolumeToolState::handleRender] *)

(** [duDebugDrawPrimitives] of the debug drawer. *)
Inductive duDebugDrawPrimitives : Type :=
| DU_DRAW_POINTS
| DU_DRAW_LINES
| DU_DRAW_TRIS
| DU_DRAW_QUADS.

(** A colour as the arguments of [duRGBA(r, g, b, a)]. *)
Record Colour : Type := duRGBA { col_r : N; col_g : N; col_b : N; col_a : N }.

(** The calls on the [DebugDrawGL] object, in the order they are made. *)
Inductive DrawCall : Type :=
| dd_begin (prim : duDebugDrawPrimitives) (size : F32.float)
| dd_vertex (x y z : F32.float) (col : Colour)
| dd_end.

(** The loop that draws the points: white, the last one red, each lifted
    by [0.1f]. *)
Definition pointCalls (vs : list vec3) : list DrawCall :=
  map (fun i =>
         let col :=
           if i =? length vs - 1 then duRGBA 240 32 16 255
           else duRGBA 255 255 255 255 in
         dd_vertex (vx (at_ vs i)) (F32.add (vy (at_ vs i)) F32.c0_1)
           (vz (at_ vs i)) col)
      (seq 0 (length vs)).

(** The six vertices that the body of the line loop emits: [vi] is the
    vertex at [j], [vj] the vertex at [i]. *)
Definition wallCalls (vi vj : vec3) (minh maxh : F32.float) : list DrawCall :=
  [dd_vertex (vx vj) minh (vz vj) (duRGBA 255 255 255 64);
   dd_vertex (vx vi) minh (vz vi) (duRGBA 255 255 255 64);
   dd_vertex (vx vj) maxh (vz vj) (duRGBA 255 255 255 64);
   dd_vertex (vx vi) maxh (vz vi) (duRGBA 255 255 255 64);
   dd_vertex (vx vj) minh (vz vj) (duRGBA 255 255 255 64);
   dd_vertex (vx vj) maxh (vz vj) (duRGBA 255 255 255 64)].

(** [for (i = 0, j = n - 1; i < n; j = i++)] over the polygon whose vertex
    [k] is [vert k]. *)
Definition edgeCalls (vert : nat -> vec3) (n : nat) (minh maxh : F32.float)
  : list DrawCall :=
  flat_map (fun i => wallCalls (vert (prevIndex n i)) (vert i) minh maxh)
    (seq 0 n).

(** [ConvexVolumeToolState::handleRender]: what it sends to the debug
    drawer. *)
Definition handleRender (s : ConvexVolumeToolState) : list DrawCall :=
  if negb (m_currentVolumeId s =? 0)%N then
    let minh := hmin (m_editVolume s) in
    let maxh := hmax (m_editVolume s) in
    [dd_begin DU_DRAW_POINTS (F32.of_Z 4)]
    ++ pointCalls (verts (m_editVolume s))
    ++ [dd_end]
    ++ [dd_begin DU_DRAW_LINES (F32.of_Z 2)]
    ++ edgeCalls (at_ (verts (m_editVolume s)))
         (length (verts (m_editVolume s))) minh maxh
    ++ [dd_end]
  else
    let minh := F32.sub (minHeight (m_pts s)) (m_boxDescent s) in
    let maxh := F32.add minh (m_boxHeight s) in
    [dd_begin DU_DRAW_POINTS (F32.of_Z 4)]
    ++ pointCalls (m_pts s)
    ++ [dd_end]
    ++ [dd_begin DU_DRAW_LINES (F32.of_Z 2)]
    ++ edgeCalls (fun i => at_ (m_pts s) (nth i (m_hull s) 0))
         (length (m_hull s)) minh maxh
    ++ [dd_end].

(** The heights between which [handleRender] draws the walls. *)
Definition renderExtent (s : ConvexVolumeToolState) : F32.float * F32.float :=
  if negb (m_currentVolumeId s =? 0)%N
  then (hmin (m_editVolume s), hmax (m_editVolume s))
  else
    let minh := F32.sub (minHeight (m_pts s)) (m_boxDescent s) in
    (minh, F32.add minh (m_boxHeight s)).

(** The points that [handleRender] draws, the number of edges it draws,
    and vertex [i] of the polygon whose edges they are: the vertices of the
    edit buffer while a volume is selected, else the picked points and
    [m_pts[m_hull[i]]]. *)
Definition drawnPoints (s : ConvexVolumeToolState) : list vec3 :=
  if negb (m_currentVolumeId s =? 0)%N then verts (m_editVolume s)
  else m_pts s.

Definition drawnEdges (s : ConvexVolumeToolState) : nat :=
  if negb (m_currentVolumeId s =? 0)%N then length (verts (m_editVolume s))
  else length (m_hull s).

Definition drawnVertex (s : ConvexVolumeToolState) (i : nat) : vec3 :=
  if negb (m_currentVolumeId s =? 0)%N then at_ (verts (m_editVolume s)) i
  else at_ (m_pts s) (nth i (m_hull s) 0).

(** ** The area type combo: [AreaTypeCombo] *)

(** The loop that finds the entry to show: [selected = 0], then
    [selected = i] for every [i] with [polyAreas[i]->id == *areaType].
    [ids] are the ids of [navMesh->GetPolyAreas()], in order. *)
Definition selectedArea (ids : list N) (areaType : N) : nat :=
  fold_left (fun selected i => if (nth i ids 0 =? areaType)%N then i
                               else selected)
    (seq 0 (length ids)) 0.

(** [AreaTypeCombo]: [choice] is what [ImGuiEx::ColorCombo] reports, [None]
    when the operator chose nothing and [Some k] when the operator chose
    entry [k] (the combo then returns true and leaves [k] in [selected]).
    The result is the entry that was shown, [changed], and [*areaType]. *)
Definition AreaTypeCombo (ids : list N) (areaType : N) (choice : option nat)
  : nat * bool * N :=
  let selected := selectedArea ids areaType in
  match choice with
  | Some k => (selected, true, nth k ids 0%N)
  | None => (selected, false, areaType)
  end.

(** ** The plugin entry points: [MQ2Nav_Main.cpp] *)

(** What an entry point writes through the host. *)
Inductive HostOutput : Type :=
| SpewInitializing   (* DebugSpewAlways("Initializing MQ2Navigation") *)
| ChatBanner         (* WriteChatf("... v%1.2f by brainiac", MQ2Version) *)
| SpewShuttingDown.  (* DebugSpewAlways("Shutting down MQ2Navigation") *)

(** The entry points that the host calls. *)
Inductive PluginCall : Type :=
| InitializePlugin
| ShutdownPlugin
| OnPulse
| OnBeginZone
| OnEndZone
| SetGameState (GameState : N).

Section Plugin.

(** [MQ2NavigationPlugin], declared outside the translated sources: the
    state of the object, the one its constructor leaves, and its methods. *)
Variable MQ2NavigationPlugin : Type.
Variable newPlugin : MQ2NavigationPlugin.
Variable pluginOnPulse : MQ2NavigationPlugin -> MQ2NavigationPlugin.
Variable pluginOnBeginZone : MQ2NavigationPlugin -> MQ2NavigationPlugin.
Variable pluginOnEndZone : MQ2NavigationPlugin -> MQ2NavigationPlugin.
Variable pluginSetGameState :
  N -> MQ2NavigationPlugin -> MQ2NavigationPlugin.

(** The global [g_mq2Nav] ([None] for a null pointer) and what was written
    through the host, oldest first. *)
Record Host : Type := mkHost {
  g_mq2Nav : option MQ2NavigationPlugin;
  h_output : list HostOutput
}.

(** [if (g_mq2Nav)]: the test of the pointer. *)
Definition pluginLoaded (h : Host) : bool :=
  match g_mq2Nav h with
  | Some _ => true
  | None => false
  end.

(** [if (g_mq2Nav) g_mq2Nav->method();] *)
Definition forward (method : MQ2NavigationPlugin -> MQ2NavigationPlugin)
    (h : Host) : Host :=
  match g_mq2Nav h with
  | Some plugin => mkHost (Some (method plugin)) (h_output h)
  | None => h
  end.

Definition pluginCall (c : PluginCall) (h : Host) : Host :=
  match c with
  | InitializePlugin =>
      mkHost (Some newPlugin) (h_output h ++ [SpewInitializing; ChatBanner])
  | ShutdownPlugin => mkHost None (h_output h ++ [SpewShuttingDown])
  | OnPulse => forward pluginOnPulse h
  | OnBeginZone => forward pluginOnBeginZone h
  | OnEndZone => forward pluginOnEndZone h
  | SetGameState GameState => forward (pluginSetGameState GameState) h
  end.

(** The calls of the host, in order. *)
Definition pluginCalls (cs : list PluginCall) (h : Host) : Host :=
  fold_left (fun h c => pluginCall c h) cs h.

End Plugin.

Arguments mkHost {MQ2NavigationPlugin}.
Arguments g_mq2Nav {MQ2NavigationPlugin}.
Arguments h_output {MQ2NavigationPlugin}.
Arguments pluginLoaded {MQ2NavigationPlugin}.
Arguments forward {MQ2NavigationPlugin}.
Arguments pluginCall {MQ2NavigationPlugin}.
Arguments pluginCalls {MQ2NavigationPlugin}.

(** ** Orbits of the wrap and spaced points *)

(** [h], the point after it, the point after that, ...: [n] indices. *)
Definition wrapFrom (pts : list vec3) (h : nat) (n : nat) : list nat :=
  map (fun i => Nat.iter i (nextPoint pts) h) (seq 0 n).

(** No point of the list lies within the closing tolerance of the point
    picked before it. *)
Fixpoint spaced (distSqr : vec3 -> vec3 -> F32.float) (pts : list vec3)
  : Prop :=
  match pts with
  | a :: (b :: _) as rest =>
      F32.lt (distSqr b a) closeTolerance = false
      /\ spaced distSqr rest
  | _ => True
  end.

(** A selected volume is the one in the edit buffer. *)
Definition edit_inv (w : World) : Prop :=
  m_currentVolumeId (w_state w) <> 0%N ->
  id (m_editVolume (w_state w)) = m_currentVolumeId (w_state w).

(** The square volume selected and renamed in the edit buffer. *)
Definition renamedWorld : World :=
  mkWorld
    (mkState [] [] 1 true
       (mkVolume 1 ["A"%char] squarePoints 0 F32.zero (F32.of_Z 5))
       (repeat NUL 256) 0 F32.zero (F32.of_Z 5) F32.zero)
    false (mkNavMesh [squareVolume]) [].

(** Two points with the same horizontal coordinates. *)
Definition sameXZ (a b : vec3) : Prop := vx a = vx b /\ vz a = vz b.

(** The last call among [cs] that sets or clears [g_mq2Nav]: [Some true]
    for [InitializePlugin], [Some false] for [ShutdownPlugin]. *)
Fixpoint lastLifecycle (cs : list PluginCall) : option bool :=
  match cs with
  | [] => None
  | c :: rest =>
      match lastLifecycle rest with
      | Some b => Some b
      | None =>
          match c with
          | InitializePlugin => Some true
          | ShutdownPlugin => Some false
          | _ => None
          end
      end
  end.

(** ** Facts about single-precision comparison and arithmetic *)

Module F32Facts.

(** [x - x] is a zero, or a NaN when [x] is not finite. *)
Lemma sub_diag (x : F32.float) : F32.is_zero_or_nan (F32.sub x x) = true.
Proof.
  destruct x as [[|]|[|]| |s m e]; try reflexivity.
  unfold F32.sub, SFsub.
  rewrite Z.sub_diag. reflexivity.
Qed.

Lemma mul_zero_or_nan_r (x y : F32.float) :
  F32.is_zero_or_nan y = true -> F32.is_zero_or_nan (F32.mul x y) = true.
Proof.
  destruct y as [sy|sy| |sy my ey]; try discriminate; intros _;
    destruct x as [sx|sx| |sx mx ex]; reflexivity.
Qed.

Lemma sub_zero_or_nan (x y : F32.float) :
  F32.is_zero_or_nan x = true -> F32.is_zero_or_nan y = true ->
  F32.is_zero_or_nan (F32.sub x y) = true.
Proof.
  destruct x as [[|]|sx| |sx mx ex]; try discriminate; intros _;
    destruct y as [[|]|sy| |sy my ey]; try discriminate; reflexivity.
Qed.

Lemma zero_or_nan_not_negative (x : F32.float) :
  F32.is_zero_or_nan x = true -> F32.lt x F32.zero = false.
Proof. destruct x as [sx|sx| |sx mx ex]; try discriminate; reflexivity. Qed.

(** *** The order on floats that are not NaN *)

Lemma le_not_nan_l (x y : F32.float) : F32.le x y = true -> F32.not_nan x.
Proof. intros H ->. discriminate H. Qed.

Lemma le_not_nan_r (x y : F32.float) : F32.le x y = true -> F32.not_nan y.
Proof. intros H ->. destruct x; discriminate H. Qed.

Lemma compare_cont_spec (m1 m2 : positive) :
  CompareSpec (m1 = m2) (m1 < m2)%positive (m2 < m1)%positive
    (Pos.compare_cont Eq m1 m2).
Proof. exact (Pos.compare_spec m1 m2). Qed.

Ltac order_cases :=
  repeat match goal with
    | |- context [Z.compare ?a ?b] => destruct (Z.compare_spec a b)
    | |- context [Pos.compare_cont Eq ?a ?b] =>
        destruct (compare_cont_spec a b)
    end.

Lemma le_refl (x : F32.float) : F32.not_nan x -> F32.le x x = true.
Proof.
  unfold F32.not_nan, F32.le, SFleb.
  destruct x as [[|]|[|]| |[|] m e]; intros H; try reflexivity;
    try congruence; simpl; rewrite Z.compare_refl;
    change (Pos.compare_cont Eq m m) with (Pos.compare m m);
    rewrite Pos.compare_refl; reflexivity.
Qed.

Lemma le_trans (x y z : F32.float) :
  F32.le x y = true -> F32.le y z = true -> F32.le x z = true.
Proof.
  unfold F32.le, SFleb.
  destruct x as [[|]|[|]| |[|] mx ex]; destruct y as [[|]|[|]| |[|] my ey];
    simpl; try discriminate; destruct z as [[|]|[|]| |[|] mz ez];
    simpl; try discriminate; try reflexivity;
    order_cases; simpl;
    try discriminate; try reflexivity; intros; exfalso; lia.
Qed.

(** Where [y < x] is false and neither is a NaN, [x <= y]. *)
Lemma not_lt_le (x y : F32.float) :
  F32.not_nan x -> F32.not_nan y -> F32.lt y x = false -> F32.le x y = true.
Proof.
  unfold F32.not_nan, F32.lt, F32.le, SFltb, SFleb.
  destruct x as [[|]|[|]| |[|] mx ex]; destruct y as [[|]|[|]| |[|] my ey];
    simpl; try congruence; intros _ _;
    order_cases; simpl;
    try discriminate; try reflexivity; intros; exfalso; lia.
Qed.

Lemma lt_le (x y : F32.float) : F32.lt x y = true -> F32.le x y = true.
Proof.
  unfold F32.lt, F32.le, SFltb, SFleb.
  destruct (SFcompare x y) as [[| |]|]; try discriminate; reflexivity.
Qed.

(** Only [FLT_MAX] itself is neither below nor above [FLT_MAX]. *)
Lemma le_FLT_MAX_not_lt (x : F32.float) :
  F32.le x F32.FLT_MAX = true -> F32.lt x F32.FLT_MAX = false ->
  x = F32.FLT_MAX.
Proof.
  unfold F32.lt, F32.le, SFltb, SFleb, F32.FLT_MAX.
  destruct x as [[|]|[|]| |[|] m e]; cbv beta iota delta [SFcompare];
    try discriminate.
  destruct (Z.compare_spec e 104); try discriminate.
  destruct (compare_cont_spec m 16777215); try discriminate.
  subst. reflexivity.
Qed.

Lemma digits2_pos_bound (m : positive) :
  (Z.pos m < 2 ^ Z.pos (digits2_pos m))%Z.
Proof.
  induction m as [m IH|m IH|]; cbn [digits2_pos].
  - rewrite Pos2Z.inj_succ, Z.pow_succ_r by lia. lia.
  - rewrite Pos2Z.inj_succ, Z.pow_succ_r by lia. lia.
  - reflexivity.
Qed.

(** Every finite binary32 value is at most [FLT_MAX]. *)
Lemma valid_finite_le_FLT_MAX (x : F32.float) :
  F32.valid x = true -> F32.finite x = true ->
  F32.le x F32.FLT_MAX = true.
Proof.
  unfold F32.valid, F32.le, SFleb, F32.FLT_MAX.
  destruct x as [[|]|[|]| |[|] m e]; cbv beta iota delta [SFcompare];
    try discriminate; try reflexivity.
  cbv beta iota delta [F32.finite valid_binary bounded canonical_mantissa].
  intros Hv _. apply andb_prop in Hv. destruct Hv as [Hc He].
  apply Z.eqb_eq in Hc. apply Z.leb_le in He.
  unfold fexp, emin, F32.prec, F32.emax in *.
  assert (Hd : (Z.pos (digits2_pos m) <= 24)%Z) by lia.
  pose proof (digits2_pos_bound m) as Hm.
  assert (Hp : (2 ^ Z.pos (digits2_pos m) <= 2 ^ 24)%Z)
    by (apply Z.pow_le_mono_r; lia).
  change (2 ^ 24)%Z with 16777216%Z in Hp.
  destruct (Z.compare_spec e 104); try reflexivity; try lia.
  destruct (compare_cont_spec m 16777215); try reflexivity; lia.
Qed.

Lemma le_not_lt (x y : F32.float) :
  F32.le x y = true -> F32.lt y x = false.
Proof.
  unfold F32.lt, F32.le, SFltb, SFleb.
  destruct x as [[|]|[|]| |[|] mx ex]; destruct y as [[|]|[|]| |[|] my ey];
    simpl; try discriminate; try reflexivity;
    order_cases; simpl;
    try discriminate; try reflexivity; intros; exfalso; lia.
Qed.

(** *** [glm::min] *)

Lemma min_cases (x y : F32.float) : F32.min x y = x \/ F32.min x y = y.
Proof. unfold F32.min. destruct (F32.lt y x); auto. Qed.

Lemma min_le_l (x y : F32.float) :
  F32.not_nan x -> F32.not_nan y -> F32.le (F32.min x y) x = true.
Proof.
  intros Hx Hy. unfold F32.min. destruct (F32.lt y x) eqn:E.
  - apply lt_le. exact E.
  - apply le_refl. exact Hx.
Qed.

Lemma min_le_r (x y : F32.float) :
  F32.not_nan x -> F32.not_nan y -> F32.le (F32.min x y) y = true.
Proof.
  intros Hx Hy. unfold F32.min. destruct (F32.lt y x) eqn:E.
  - apply le_refl. exact Hy.
  - apply not_lt_le; assumption.
Qed.

End F32Facts.

(** ** The hull of few points, and indices in range *)

Lemma left_self (a b : vec3) : left a b a = false.
Proof.
  unfold left.
  apply F32Facts.zero_or_nan_not_negative.
  apply F32Facts.sub_zero_or_nan.
  - apply F32Facts.mul_zero_or_nan_r, F32Facts.sub_diag.
  - apply F32Facts.mul_zero_or_nan_r, F32Facts.sub_diag.
Qed.

Lemma giftWrap_S (fuel : nat) (pts : list vec3) (hull : nat) (out : list nat) :
  giftWrap (S fuel) pts hull out =
  if nextPoint pts hull =? nth 0 (out ++ [hull]) 0 then Some (out ++ [hull])
  else giftWrap fuel pts (nextPoint pts hull) (out ++ [hull]).
Proof. reflexivity. Qed.

(** More fuel does not change a result. *)
Lemma giftWrap_more_fuel (fuel k : nat) (pts : list vec3) :
  forall hull out res,
    giftWrap fuel pts hull out = Some res ->
    giftWrap (fuel + k) pts hull out = Some res.
Proof.
  induction fuel as [|fuel IH]; intros hull out res H.
  - discriminate H.
  - change (S fuel + k) with (S (fuel + k)).
    rewrite giftWrap_S in *.
    destruct (nextPoint pts hull =? nth 0 (out ++ [hull]) 0).
    + exact H.
    + apply IH. exact H.
Qed.

Lemma convexhull_more_fuel (fuel fuel' : nat) (pts : list vec3) res :
  convexhull fuel pts = Some res -> fuel <= fuel' ->
  convexhull fuel' pts = Some res.
Proof.
  unfold convexhull. intros H Hle.
  replace fuel' with (fuel + (fuel' - fuel)) by lia.
  apply giftWrap_more_fuel. exact H.
Qed.

(** A loop that keeps an index or replaces it by the current one ends on
    the start value or on an index it ran over. *)
Lemma pick_fold_range (choose : nat -> nat -> bool) (l : list nat) :
  forall start,
    let r := fold_left (fun acc j => if choose acc j then j else acc) l start in
    r = start \/ In r l.
Proof.
  induction l as [|j l IH]; intros start; cbn [fold_left].
  - left. reflexivity.
  - destruct (IH (if choose start j then j else start)) as [H|H].
    + destruct (choose start j).
      * right. left. symmetry. exact H.
      * left. exact H.
    + right. right. exact H.
Qed.

Lemma lowerLeft_range (pts : list vec3) : lowerLeft pts <= length pts - 1.
Proof.
  unfold lowerLeft.
  destruct (pick_fold_range
              (fun hull i => cmppt (at_ pts i) (at_ pts hull))
              (seq 1 (length pts - 1)) 0) as [H|H].
  - rewrite H. lia.
  - apply in_seq in H. lia.
Qed.

Lemma nextPoint_range (pts : list vec3) (hull : nat) :
  nextPoint pts hull <= length pts - 1.
Proof.
  unfold nextPoint.
  destruct (pick_fold_range
              (fun endpt j =>
                 (hull =? endpt)
                 || left (at_ pts hull) (at_ pts endpt) (at_ pts j))
              (seq 1 (length pts - 1)) 0) as [H|H].
  - rewrite H. lia.
  - apply in_seq in H. lia.
Qed.

Lemma giftWrap_range (pts : list vec3) (fuel : nat) :
  forall hull out res,
    hull <= length pts - 1 ->
    Forall (fun h => h <= length pts - 1) out ->
    giftWrap fuel pts hull out = Some res ->
    Forall (fun h => h <= length pts - 1) res.
Proof.
  induction fuel as [|fuel IH]; intros hull out res Hh Ho H.
  - discriminate H.
  - rewrite giftWrap_S in H.
    assert (Ho' : Forall (fun h => h <= length pts - 1) (out ++ [hull])).
    { apply Forall_app. split; [exact Ho|].
      constructor; [exact Hh|constructor]. }
    destruct (nextPoint pts hull =? nth 0 (out ++ [hull]) 0).
    + injection H as <-. exact Ho'.
    + eapply IH; [apply nextPoint_range|exact Ho'|exact H].
Qed.

(** [convexhull] only ever yields indices of points: on a vector that is
    not empty, every index of the hull is below its size. *)
Lemma convexhull_indices_in_range (fuel : nat) (pts : list vec3) res :
  pts <> [] -> convexhull fuel pts = Some res ->
  Forall (fun h => h < length pts) res.
Proof.
  intros Hne H.
  assert (0 < length pts) by (destruct pts; [congruence|cbn; lia]).
  eapply Forall_impl;
    [|eapply giftWrap_range; [apply lowerLeft_range|constructor|exact H]].
  cbn beta. intros h Hh. lia.
Qed.

(** The hull always has a first index. *)
Lemma giftWrap_nonempty (pts : list vec3) (fuel : nat) :
  forall hull out res, giftWrap fuel pts hull out = Some res -> res <> [].
Proof.
  induction fuel as [|fuel IH]; intros hull out res H.
  - discriminate H.
  - rewrite giftWrap_S in H.
    destruct (nextPoint pts hull =? nth 0 (out ++ [hull]) 0).
    + injection H as <-. destruct out; discriminate.
    + eapply IH. exact H.
Qed.

Lemma convexhull_no_points (fuel : nat) :
  convexhull (S fuel) [] = Some [0].
Proof. reflexivity. Qed.

Lemma convexhull_one_point (fuel : nat) (a : vec3) :
  convexhull (S fuel) [a] = Some [0].
Proof. reflexivity. Qed.

Lemma convexhull_two_points (fuel : nat) (a b : vec3) :
  convexhull (S (S fuel)) [a; b] =
  Some (if cmppt b a then [1; 0] else [0; 1]).
Proof.
  unfold convexhull.
  assert (Hn0 : nextPoint [a; b] 0 = 1) by reflexivity.
  assert (Hn1 : nextPoint [a; b] 1 = 0).
  { unfold nextPoint. cbn [length Nat.sub seq fold_left Nat.eqb orb at_ nth].
    rewrite left_self. reflexivity. }
  assert (Hl : lowerLeft [a; b] = if cmppt b a then 1 else 0) by reflexivity.
  rewrite Hl.
  destruct (cmppt b a).
  - rewrite giftWrap_S, Hn1. cbn [app nth Nat.eqb].
    rewrite giftWrap_S, Hn0. reflexivity.
  - rewrite giftWrap_S, Hn0. cbn [app nth Nat.eqb].
    rewrite giftWrap_S, Hn1. reflexivity.
Qed.

(** ** What holds in every state the tool can be in *)

Section SessionFacts.

Variable tilesOf : NavMesh -> N -> list dtTileRef.
Variable rcOffsetPoly : list vec3 -> F32.float -> nat -> Z * list vec3.
Variable distSqr : vec3 -> vec3 -> F32.float.

(** Whatever [CreateShape] does to the mesh, it leaves the session
    reset. *)
Lemma CreateShape_resets (s : ConvexVolumeToolState) (nm : NavMesh) :
  fst (fst (CreateShape tilesOf rcOffsetPoly s nm)) = reset s.
Proof.
  unfold CreateShape.
  destruct (2 <? length (m_hull s)); [|reflexivity].
  destruct (F32.gt (m_polyOffset s) F32.c0_01); [|reflexivity].
  destruct (rcOffsetPoly _ _ _) as [noffset offset].
  destruct (0 <? noffset)%Z; reflexivity.
Qed.

Lemma session_inv_same_buffers (w w' : World) :
  session_inv w ->
  m_pts (w_state w') = m_pts (w_state w) ->
  m_hull (w_state w') = m_hull (w_state w) ->
  (m_currentVolumeId (w_state w') <> 0%N ->
   m_currentVolumeId (w_state w) <> 0%N /\ w_editing w' = false) ->
  session_inv w'.
Proof.
  intros [Hs Hn Hh] Hp Hu Hid. constructor; rewrite ?Hp, ?Hu.
  - intros H. destruct (Hid H) as [H0 He].
    destruct (Hs H0) as (_ & H1 & H2). auto.
  - exact Hn.
  - exact Hh.
Qed.

Lemma session_inv_empty (w : World) :
  m_pts (w_state w) = [] -> m_hull (w_state w) = [] ->
  (m_currentVolumeId (w_state w) <> 0%N -> w_editing w = false) ->
  session_inv w.
Proof.
  intros Hp Hu He. constructor; rewrite ?Hp, ?Hu.
  - auto.
  - reflexivity.
  - cbn. lia.
Qed.

(** The cases of [handleMenu]: the session is left reset, or the buffers
    are left alone. *)
Ltac session_reset :=
  apply session_inv_empty; [reflexivity|reflexivity|cbn; congruence].

Ltac session_buffers_kept Hinv :=
  apply (session_inv_same_buffers _ _ Hinv); [reflexivity|reflexivity|cbn].

Lemma handleMenu_inv (ev : MenuEvent) (w : World) :
  session_inv w -> session_inv (handleMenu tilesOf rcOffsetPoly ev w).
Proof.
  intros Hinv. destruct w as [s editing nm log].
  assert (Hcreating :
    editing = true -> m_currentVolumeId s <> 0%N ->
    m_currentVolumeId s <> 0%N /\ editing = false).
  { intros He H. destruct (inv_selected _ Hinv H) as [He' _].
    cbn in He'. congruence. }
  assert (Hvolume :
    negb editing && negb (m_currentVolumeId s =? 0)%N = true ->
    m_currentVolumeId s <> 0%N ->
    m_currentVolumeId s <> 0%N /\ editing = false).
  { intros E H. apply andb_prop in E. destruct editing; [|auto].
    destruct E as [E _]. discriminate E. }
  destruct ev; unfold handleMenu; cbn [w_state w_editing w_navMesh w_rebuilt].
  - (* a row of the list *)
    destruct (GetConvexVolume nm row) as [volume|]; [|exact Hinv].
    destruct (negb (m_currentVolumeId s =? id volume)%N); [|exact Hinv].
    apply session_inv_empty; reflexivity.
  - (* "Create New" *)
    session_reset.
  - (* "Delete" *)
    destruct (negb editing && negb (m_currentVolumeId s =? 0)%N);
      [|exact Hinv].
    session_buffers_kept Hinv. congruence.
  - destruct editing; [|exact Hinv].
    session_buffers_kept Hinv. auto.
  - destruct editing; [|exact Hinv].
    session_buffers_kept Hinv. auto.
  - destruct editing; [|exact Hinv].
    session_buffers_kept Hinv. auto.
  - destruct editing; [|exact Hinv].
    session_buffers_kept Hinv. auto.
  - destruct editing; [|exact Hinv].
    session_buffers_kept Hinv. auto.
  - (* "Create Volume" *)
    destruct (editing && (2 <? length (m_hull s))); [|exact Hinv].
    pose proof (CreateShape_resets s nm) as Hr.
    destruct (CreateShape tilesOf rcOffsetPoly s nm) as [[s' nm'] tiles].
    cbn in Hr. subst s'. session_reset.
  - (* "Cancel" *)
    destruct editing; [|exact Hinv]. session_reset.
  - destruct (negb editing && negb (m_currentVolumeId s =? 0)%N) eqn:E;
      [|exact Hinv].
    session_buffers_kept Hinv. auto.
  - destruct (negb editing && negb (m_currentVolumeId s =? 0)%N) eqn:E;
      [|exact Hinv].
    session_buffers_kept Hinv. auto.
  - destruct (negb editing && negb (m_currentVolumeId s =? 0)%N) eqn:E;
      [|exact Hinv].
    session_buffers_kept Hinv. auto.
  - destruct (negb editing && negb (m_currentVolumeId s =? 0)%N) eqn:E;
      [|exact Hinv].
    session_buffers_kept Hinv. auto.
  - (* "Save Changes" *)
    destruct (negb editing && negb (m_currentVolumeId s =? 0)%N) eqn:E;
      [|exact Hinv].
    cbn [andb].
    destruct (m_modified s); [|exact Hinv].
    destruct (GetConvexVolumeById nm (m_currentVolumeId s)); [|exact Hinv].
    session_buffers_kept Hinv. auto.
Qed.

Lemma handleVolumeClick_state (fuel : nat) (p : vec3) (shift alt : bool)
    (s s' : ConvexVolumeToolState) (nm nm' : NavMesh)
    (tiles : list dtTileRef) :
  handleVolumeClick tilesOf rcOffsetPoly distSqr fuel p shift alt s nm
  = Some (s', nm', tiles) ->
  s' = s \/ s' = reset s
  \/ (m_pts s = [] /\ s' = withBuffers [p] [] s)
  \/ (exists hull,
        m_pts s <> [] /\ s' = withBuffers (m_pts s ++ [p]) hull s
        /\ convexhull fuel (m_pts s ++ [p]) = Some hull).
Proof.
  unfold handleVolumeClick. destruct shift.
  - destruct (findHit p (m_volumes nm) 0) as [i|].
    + destruct (GetConvexVolume nm i); intros H; injection H as <- _ _; auto.
    + intros H; injection H as <- _ _; auto.
  - destruct ((0 <? length (m_pts s))
              && (alt || F32.lt (distSqr p (last (m_pts s) vec3_zero))
                           closeTolerance)).
    + intros H. right. left.
      rewrite <- (CreateShape_resets s nm).
      injection H as H. rewrite H. reflexivity.
    + destruct (m_pts s) as [|q pts] eqn:Ep.
      * cbn. intros H; injection H as <- _ _. right. right. left. auto.
      * replace (2 <=? length ((q :: pts) ++ [p])) with true
          by (symmetry; apply Nat.leb_le; rewrite length_app; cbn; lia).
        destruct (convexhull fuel ((q :: pts) ++ [p])) as [hull|];
          [|discriminate].
        intros H; injection H as <- _ _. right. right. right.
        exists hull. repeat split. discriminate.
Qed.

Lemma handleClick_inv (fuel : nat) (p : vec3) (shift alt : bool)
    (w w' : World) :
  session_inv w ->
  handleClick tilesOf rcOffsetPoly distSqr fuel p shift alt w = Some w' ->
  session_inv w'.
Proof.
  intros Hinv. unfold handleClick.
  destruct (N.eqb_spec (m_currentVolumeId (w_state w)) 0) as [Hid|Hid].
  - cbn [negb].
    destruct (handleVolumeClick _ _ _ _ _ _ _ _ _) as [[[s' nm'] tiles]|]
      eqn:E; [|discriminate].
    intros H; injection H as <-.
    apply handleVolumeClick_state in E.
    destruct E as [->|[->|[[Hp ->]|(hull & Hp & -> & Hh)]]].
    + apply (session_inv_same_buffers _ _ Hinv); [reflexivity|reflexivity|].
      cbn. congruence.
    + apply session_inv_empty; [reflexivity|reflexivity|]. cbn. congruence.
    + constructor; cbn.
      * congruence.
      * reflexivity.
      * lia.
    + constructor; cbn.
      * congruence.
      * rewrite length_app. cbn. destruct (m_pts (w_state w)); [congruence|].
        cbn. lia.
      * intros _. exists fuel. exact Hh.
  - destruct (inv_selected _ Hinv Hid) as (He & _).
    rewrite He. cbn [negb].
    intros H; injection H as <-.
    apply (session_inv_same_buffers _ _ Hinv); [reflexivity|reflexivity|].
    cbn. auto.
Qed.

Lemma step_inv (w w' : World) (op : Op) :
  session_inv w -> step tilesOf rcOffsetPoly distSqr w op w' ->
  session_inv w'.
Proof.
  intros Hinv Hstep. destruct Hstep.
  - apply handleMenu_inv. exact Hinv.
  - eapply handleClick_inv; eassumption.
  - apply (session_inv_same_buffers _ _ Hinv); [reflexivity|reflexivity|].
    cbn. auto.
Qed.

Lemma reachable_inv (w : World) :
  reachable tilesOf rcOffsetPoly distSqr w -> session_inv w.
Proof.
  induction 1 as [w (Hp & Hu & Hid)|w op w' _ IH Hstep].
  - apply session_inv_empty; [exact Hp|exact Hu|]. congruence.
  - eapply step_inv; eassumption.
Qed.

(** The hull buffer of a reachable session only holds indices of picked
    points, so [m_pts[m_hull[i]]] is always a picked point. *)
Lemma reachable_hull_indices (w : World) :
  reachable tilesOf rcOffsetPoly distSqr w ->
  Forall (fun h => h < length (m_pts (w_state w))) (m_hull (w_state w)).
Proof.
  intros Hr. apply reachable_inv in Hr. destruct Hr as [_ Hn Hh].
  destruct (Nat.lt_ge_cases (length (m_pts (w_state w))) 2) as [Hl|Hl].
  - rewrite (Hn Hl). constructor.
  - destruct (Hh Hl) as [fuel Hf].
    apply (convexhull_indices_in_range fuel); [|exact Hf].
    intros E. rewrite E in Hl. cbn in Hl. lia.
Qed.

End SessionFacts.

(** ** The hull of fewer than three points *)

(** C2, as stated, fails: the hull of two points is not empty, neither as the
    result of [convexhull] nor in the hull buffer of a session in which two
    points were picked. *)
Lemma hull_of_two_points_not_empty :
  convexhull 2 [pointZ 0 0 0; pointZ 1 0 0] = Some [0; 1]
  /\ convexhull 1 [] = Some [0]
  /\ exists w1 w2,
      handleClick noTiles offsetFails distSqr3 2 (pointZ 0 0 0) false false
        freshWorld = Some w1
      /\ handleClick noTiles offsetFails distSqr3 2 (pointZ 1 0 0) false false
           w1 = Some w2
      /\ m_pts (w_state w2) = [pointZ 0 0 0; pointZ 1 0 0]
      /\ m_hull (w_state w2) = [0; 1].
Proof.
  split; [reflexivity|]. split; [reflexivity|].
  eexists. eexists.
  split; [vm_compute; reflexivity|].
  split; [vm_compute; reflexivity|].
  split; reflexivity.
Qed.

(** C2, amended: for 0, 1 or 2 points [convexhull] returns, and the hull it
    yields is not empty but has fewer than 3 indices: the single index 0 for
    0 or 1 points, both indices for 2 points.  In a session the hull buffer
    is empty while fewer than 2 points are picked and has exactly 2 indices
    when 2 points are picked; so below 3 points it never has the more than 2
    indices a shape needs. *)
Theorem hull_of_few_points
    (tilesOf : NavMesh -> N -> list dtTileRef)
    (rcOffsetPoly : list vec3 -> F32.float -> nat -> Z * list vec3)
    (distSqr : vec3 -> vec3 -> F32.float) :
  (forall pts, length pts <= 2 ->
     exists out,
       (forall fuel, 2 <= fuel -> convexhull fuel pts = Some out)
       /\ length out = Nat.max 1 (length pts))
  /\ (forall w, reachable tilesOf rcOffsetPoly distSqr w ->
        length (m_pts (w_state w)) <= 2 ->
        (length (m_pts (w_state w)) < 2 -> m_hull (w_state w) = [])
        /\ (length (m_pts (w_state w)) = 2 ->
            length (m_hull (w_state w)) = 2)
        /\ length (m_hull (w_state w)) < 3).
Proof.
  split.
  - intros [|a [|b [|c pts]]] Hlen.
    + exists [0]. split; [|reflexivity].
      intros [|fuel] Hf; [lia|]. apply convexhull_no_points.
    + exists [0]. split; [|reflexivity].
      intros [|fuel] Hf; [lia|]. apply convexhull_one_point.
    + exists (if cmppt b a then [1; 0] else [0; 1]).
      split; [|destruct (cmppt b a); reflexivity].
      intros [|[|fuel]] Hf; try lia. apply convexhull_two_points.
    + cbn in Hlen. lia.
  - intros w Hr Hlen.
    apply reachable_inv in Hr. destruct Hr as [_ Hn Hh].
    assert (H2 : length (m_pts (w_state w)) = 2 ->
                 length (m_hull (w_state w)) = 2).
    { intros E. destruct (Hh ltac:(lia)) as [fuel Hf].
      destruct (m_pts (w_state w)) as [|a [|b [|c pts]]]; try discriminate E.
      apply (convexhull_more_fuel fuel (S (S fuel))) in Hf; [|lia].
      rewrite convexhull_two_points in Hf. injection Hf as <-.
      destruct (cmppt b a); reflexivity. }
    split; [exact Hn|]. split; [exact H2|].
    destruct (Nat.lt_ge_cases (length (m_pts (w_state w))) 2) as [Hl|Hl].
    + rewrite (Hn Hl). cbn. lia.
    + rewrite H2 by lia. lia.
Qed.

Lemma twoPicked_reachable :
  reachable noTiles offsetFails distSqr3 twoPicked.
Proof.
  eapply reach_step with (op := Click (pointZ 2 0 0) false false).
  - eapply reach_step with (op := Click (pointZ 1 0 0) false false).
    + apply (reach_initial _ _ _ freshWorld). repeat split.
    + apply step_click with (fuel := 1). vm_compute. reflexivity.
  - apply step_click with (fuel := 2). vm_compute. reflexivity.
Qed.

Lemma hull_of_few_points_witness :
  (exists out,
     (forall fuel, 2 <= fuel ->
        convexhull fuel [pointZ 1 0 0; pointZ 2 0 0] = Some out)
     /\ length out = 2)
  /\ length (m_hull (w_state twoPicked)) = 2.
Proof.
  split.
  - apply (proj1 (hull_of_few_points noTiles offsetFails distSqr3)
             [pointZ 1 0 0; pointZ 2 0 0]).
    cbn. lia.
  - apply (proj2 (hull_of_few_points noTiles offsetFails distSqr3) twoPicked).
    + exact twoPicked_reachable.
    + cbn. lia.
    + reflexivity.
Defined.

(** ** The hull of points on one line *)

Lemma colinear3_start : lowerLeft colinear3 = 2.
Proof. vm_compute. reflexivity. Qed.

Lemma colinear3_next :
  nextPoint colinear3 2 = 0 /\ nextPoint colinear3 0 = 1
  /\ nextPoint colinear3 1 = 0.
Proof. vm_compute. auto. Qed.

(** Once the wrap left index 2 it alternates between 0 and 1. *)
Lemma colinear3_wraps_forever (fuel : nat) :
  forall hull out,
    hull < 2 -> nth 0 out 0 = 2 ->
    giftWrap fuel colinear3 hull out = None.
Proof.
  destruct colinear3_next as (_ & N0 & N1).
  induction fuel as [|fuel IH]; intros hull out Hh Ho; [reflexivity|].
  rewrite giftWrap_S.
  assert (Ho' : nth 0 (out ++ [hull]) 0 = 2).
  { destruct out as [|o out]; [cbn in Ho; discriminate Ho|exact Ho]. }
  rewrite Ho'.
  destruct hull as [|[|hull]]; [rewrite N0|rewrite N1|lia];
    cbn [Nat.eqb]; apply IH; try lia; exact Ho'.
Qed.

(** C9: on the three colinear points (1,0,0), (2,0,0), (0,0,0) the
    gift-wrapping loop of [convexhull] never ends: no amount of fuel yields a
    hull.  The session reaches this input by three picks: the pick of
    (0,0,0) after (1,0,0) and (2,0,0) never returns. *)
Theorem convexhull_colinear_never_returns :
  (forall fuel, convexhull fuel colinear3 = None)
  /\ reachable noTiles offsetFails distSqr3 twoPicked
  /\ (forall fuel,
        handleClick noTiles offsetFails distSqr3 fuel (pointZ 0 0 0)
          false false twoPicked = None).
Proof.
  assert (H : forall fuel, convexhull fuel colinear3 = None).
  { intros [|fuel]; [reflexivity|].
    unfold convexhull.
    rewrite colinear3_start, giftWrap_S, (proj1 colinear3_next).
    cbn [app nth Nat.eqb].
    apply colinear3_wraps_forever; [lia|reflexivity]. }
  split; [exact H|]. split; [exact twoPicked_reachable|].
  intros fuel.
  unfold handleClick, handleVolumeClick.
  replace (m_pts (w_state twoPicked) ++ [pointZ 0 0 0]) with colinear3
    by reflexivity.
  rewrite H.
  vm_compute. reflexivity.
Qed.

(** ** The height extent of a committed shape *)

Lemma minHeight_fold (vs : list vec3) :
  forall acc,
    F32.not_nan acc ->
    Forall (fun q => F32.not_nan (vy q)) vs ->
    let r := fold_left (fun minh v => F32.min minh (vy v)) vs acc in
    (r = acc \/ exists q, In q vs /\ r = vy q)
    /\ F32.le r acc = true
    /\ forall q, In q vs -> F32.le r (vy q) = true.
Proof.
  induction vs as [|q vs IH]; intros acc Hacc Hvs; cbn [fold_left].
  - split; [left; reflexivity|]. split; [apply F32Facts.le_refl; exact Hacc|].
    intros q [].
  - inversion Hvs as [|? ? Hq Hrest]; subst.
    assert (Hm : F32.not_nan (F32.min acc (vy q))).
    { destruct (F32Facts.min_cases acc (vy q)) as [E|E]; rewrite E;
        assumption. }
    destruct (IH (F32.min acc (vy q)) Hm Hrest) as (Hin & Hle & Hall).
    split; [|split].
    + destruct Hin as [E|(q' & Hq' & E)].
      * destruct (F32Facts.min_cases acc (vy q)) as [E'|E'].
        -- left. congruence.
        -- right. exists q. split; [left; reflexivity|congruence].
      * right. exists q'. split; [right; exact Hq'|exact E].
    + eapply F32Facts.le_trans; [exact Hle|].
      apply F32Facts.min_le_l; assumption.
    + intros q' [<-|Hq'].
      * eapply F32Facts.le_trans; [exact Hle|].
        apply F32Facts.min_le_r; assumption.
      * apply Hall. exact Hq'.
Qed.

(** Over points whose heights are at most [FLT_MAX] (so neither NaN nor
    [+inf]), the loop computes the least height of the points. *)
Lemma minHeight_least (vs : list vec3) :
  vs <> [] ->
  Forall (fun q => F32.le (vy q) F32.FLT_MAX = true) vs ->
  exists q, In q vs /\ minHeight vs = vy q
            /\ forall q', In q' vs -> F32.le (vy q) (vy q') = true.
Proof.
  intros Hne Hvs. unfold minHeight.
  assert (Hnn : Forall (fun q => F32.not_nan (vy q)) vs).
  { eapply Forall_impl; [|exact Hvs]. cbn beta. intros q Hq.
    eapply F32Facts.le_not_nan_l. exact Hq. }
  destruct (minHeight_fold vs F32.FLT_MAX ltac:(discriminate) Hnn)
    as (Hin & _ & Hall).
  destruct Hin as [E|(q & Hq & E)].
  - destruct vs as [|q0 vs]; [congruence|].
    exists q0. split; [left; reflexivity|].
    assert (E0 : vy q0 = F32.FLT_MAX).
    { apply F32Facts.le_FLT_MAX_not_lt.
      - inversion Hvs; assumption.
      - apply F32Facts.le_not_lt. rewrite <- E. apply Hall. left. reflexivity. }
    split; [congruence|].
    intros q' Hq'. rewrite E0, <- E. apply Hall. exact Hq'.
  - exists q. split; [exact Hq|]. split; [exact E|].
    intros q' Hq'. rewrite <- E. apply Hall. exact Hq'.
Qed.

Lemma freshId_above (vols : list ConvexVolume) :
  forall u, In u vols -> (id u < freshId vols)%N.
Proof.
  unfold freshId. induction vols as [|v vols IH]; intros u []; cbn [fold_right].
  - subst. lia.
  - specialize (IH u H). lia.
Qed.

Lemma freshId_nonzero (vols : list ConvexVolume) : freshId vols <> 0%N.
Proof. unfold freshId. lia. Qed.

(** A volume that was just added is the one its id finds. *)
Lemma GetConvexVolumeById_added (nm : NavMesh) (vs : list vec3)
    (nam : list ascii) (minh maxh : F32.float) (area : N) :
  let '(v, nm') := AddConvexVolume nm vs nam minh maxh area in
  GetConvexVolumeById nm' (id v) = Some v.
Proof.
  unfold AddConvexVolume, GetConvexVolumeById. cbn [m_volumes id].
  pose proof (freshId_above (m_volumes nm)) as Hfresh.
  set (f := freshId (m_volumes nm)) in *. clearbody f.
  induction (m_volumes nm) as [|u vols IH]; cbn [app find id].
  - rewrite N.eqb_refl. reflexivity.
  - destruct (N.eqb_spec (id u) f) as [E|E].
    + specialize (Hfresh u (or_introl eq_refl)). lia.
    + apply IH. intros u' Hu'. apply Hfresh. right. exact Hu'.
Qed.

(** ** Committing a shape *)

Section Commit.

Variable tilesOf : NavMesh -> N -> list dtTileRef.
Variable rcOffsetPoly : list vec3 -> F32.float -> nat -> Z * list vec3.
Variable distSqr : vec3 -> vec3 -> F32.float.


(** C4: when a commit creates a volume (which takes a hull of more than 2
    indices), the volume's [hmin] is the least height of the hull points
    minus [boxDescent], and its [hmax] is that [hmin] plus [boxHeight];
    the volume is the one the mesh finds under the new id.  The heights of
    the hull points are ordinary floats (at most [FLT_MAX]). *)
Theorem commit_height_extent
    (s s' : ConvexVolumeToolState) (nm nm' : NavMesh)
    (tiles : list dtTileRef) (v : ConvexVolume) :
  CreateShape tilesOf rcOffsetPoly s nm = (s', nm', tiles) ->
  m_volumes nm' = m_volumes nm ++ [v] ->
  Forall (fun q => F32.le (vy q) F32.FLT_MAX = true) (hullVerts s) ->
  2 < length (m_hull s)
  /\ (exists q,
        In q (hullVerts s)
        /\ (forall q', In q' (hullVerts s) -> F32.le (vy q) (vy q') = true)
        /\ hmin v = F32.sub (vy q) (m_boxDescent s))
  /\ hmax v = F32.add (hmin v) (m_boxHeight s)
  /\ GetConvexVolumeById nm' (id v) = Some v.
Proof.
  intros Hc Hv Hys.
  assert (Hsame : m_volumes nm <> m_volumes nm ++ [v]).
  { intros E. apply (f_equal (@length _)) in E.
    rewrite length_app in E. cbn in E. lia. }
  unfold CreateShape in Hc.
  destruct (Nat.ltb_spec 2 (length (m_hull s))) as [Hh|Hh];
    [|injection Hc as _ <- _; contradiction].
  split; [exact Hh|].
  assert (Hne : hullVerts s <> []).
  { unfold hullVerts. destruct (m_hull s); [cbn in Hh; lia|discriminate]. }
  destruct (minHeight_least (hullVerts s) Hne Hys) as (q & Hq & Hmin & Hleast).
  assert (Hadded :
    forall vs,
      (s', nm', tiles) =
      (let '(volume, nm0) :=
         AddConvexVolume nm vs (c_str (m_name s))
           (F32.sub (minHeight (hullVerts s)) (m_boxDescent s))
           (F32.add (F32.sub (minHeight (hullVerts s)) (m_boxDescent s))
              (m_boxHeight s))
           (m_areaType s) in
       (reset s, nm0, tilesOf nm0 (id volume))) ->
      (exists q0,
         In q0 (hullVerts s)
         /\ (forall q', In q' (hullVerts s) ->
               F32.le (vy q0) (vy q') = true)
         /\ hmin v = F32.sub (vy q0) (m_boxDescent s))
      /\ hmax v = F32.add (hmin v) (m_boxHeight s)
      /\ GetConvexVolumeById nm' (id v) = Some v).
  { intros vs E.
    pose proof (GetConvexVolumeById_added nm vs (c_str (m_name s))
                  (F32.sub (minHeight (hullVerts s)) (m_boxDescent s))
                  (F32.add (F32.sub (minHeight (hullVerts s))
                              (m_boxDescent s)) (m_boxHeight s))
                  (m_areaType s)) as Hfind.
    unfold AddConvexVolume in E, Hfind. cbn beta iota zeta in E, Hfind.
    injection E as _ E _. subst nm'. cbn [m_volumes] in Hv.
    apply app_inj_tail in Hv. destruct Hv as [_ <-].
    split; [|split].
    - exists q. split; [exact Hq|]. split; [exact Hleast|].
      cbn [hmin]. rewrite Hmin. reflexivity.
    - reflexivity.
    - exact Hfind. }
  destruct (F32.gt (m_polyOffset s) F32.c0_01).
  - destruct (rcOffsetPoly _ _ _) as [noffset offset].
    destruct (0 <? noffset)%Z.
    + apply (Hadded _ (eq_sym Hc)).
    + injection Hc as _ <- _. contradiction.
  - apply (Hadded _ (eq_sym Hc)).
Qed.

(** C5: a commit on a hull of at most 2 indices creates no volume and
    names no tile to rebuild, and it leaves the session reset (no points, no
    hull, no selection, an empty edit buffer); the click that finalises
    such a shape (with alt, or close to the last point) returns normally,
    with the mesh and the rebuild requests as they were. *)
Theorem commit_without_shape
    (s : ConvexVolumeToolState) (nm : NavMesh) :
  length (m_hull s) <= 2 ->
  CreateShape tilesOf rcOffsetPoly s nm = (reset s, nm, [])
  /\ (m_pts (reset s) = [] /\ m_hull (reset s) = []
      /\ m_currentVolumeId (reset s) = 0%N
      /\ m_editVolume (reset s) = ConvexVolume_empty
      /\ m_modified (reset s) = false)
  /\ (forall fuel p alt editing log,
        m_pts s <> [] -> m_currentVolumeId s = 0%N ->
        alt || F32.lt (distSqr p (last (m_pts s) vec3_zero)) closeTolerance
        = true ->
        handleClick tilesOf rcOffsetPoly distSqr fuel p false alt
          (mkWorld s editing nm log)
        = Some (mkWorld (reset s) true nm log)).
Proof.
  intros Hh.
  assert (Hc : CreateShape tilesOf rcOffsetPoly s nm = (reset s, nm, [])).
  { unfold CreateShape.
    replace (2 <? length (m_hull s)) with false
      by (symmetry; apply Nat.ltb_ge; exact Hh).
    reflexivity. }
  split; [exact Hc|]. split; [repeat split|].
  intros fuel p alt editing log Hp Hid Hfin.
  unfold handleClick, handleVolumeClick.
  cbn [w_state w_editing w_navMesh w_rebuilt].
  rewrite Hid, Hfin. cbn [N.eqb negb].
  replace (0 <? length (m_pts s)) with true
    by (symmetry; apply Nat.ltb_lt; destruct (m_pts s);
        [congruence|cbn; lia]).
  cbn [andb]. rewrite Hc. reflexivity.
Qed.

(** What a click without shift comes to, by cases on the points buffer:
    on a session that has points it commits when alt is held or the point is
    within the tolerance of the last picked point, and otherwise hands the
    extended points to [convexhull]; on a session without points it appends
    the point and clears the hull buffer. *)
Lemma handleVolumeClick_no_shift
    (fuel : nat) (p : vec3) (alt : bool)
    (s : ConvexVolumeToolState) (nm : NavMesh) :
  (m_pts s <> [] ->
   2 <= length (m_pts s ++ [p])
   /\ handleVolumeClick tilesOf rcOffsetPoly distSqr fuel p false alt s nm =
      if alt || F32.lt (distSqr p (last (m_pts s) vec3_zero)) closeTolerance
      then Some (CreateShape tilesOf rcOffsetPoly s nm)
      else
        match convexhull fuel (m_pts s ++ [p]) with
        | Some hull => Some (withBuffers (m_pts s ++ [p]) hull s, nm, [])
        | None => None
        end)
  /\ (m_pts s = [] ->
      handleVolumeClick tilesOf rcOffsetPoly distSqr fuel p false alt s nm =
      Some (withBuffers [p] [] s, nm, [])).
Proof.
  split.
  - intros Hp.
    assert (Hl : 2 <= length (m_pts s ++ [p])).
    { rewrite length_app. destruct (m_pts s); [congruence|cbn; lia]. }
    split; [exact Hl|].
    unfold handleVolumeClick.
    replace (0 <? length (m_pts s)) with true
      by (symmetry; apply Nat.ltb_lt; destruct (m_pts s);
          [congruence|cbn; lia]).
    cbn [andb].
    destruct (alt || F32.lt (distSqr p (last (m_pts s) vec3_zero))
                       closeTolerance); [reflexivity|].
    replace (2 <=? length (m_pts s ++ [p])) with true
      by (symmetry; apply Nat.leb_le; exact Hl).
    reflexivity.
  - intros Hp. unfold handleVolumeClick. rewrite Hp. reflexivity.
Qed.

End Commit.



Lemma commit_height_extent_witness :
  2 < length (m_hull squarePicked)
  /\ (exists q,
        In q (hullVerts squarePicked)
        /\ (forall q', In q' (hullVerts squarePicked) ->
              F32.le (vy q) (vy q') = true)
        /\ hmin squareVolume = F32.sub (vy q) (m_boxDescent squarePicked))
  /\ hmax squareVolume
     = F32.add (hmin squareVolume) (m_boxHeight squarePicked)
  /\ GetConvexVolumeById (mkNavMesh [squareVolume]) (id squareVolume)
     = Some squareVolume.
Proof.
  apply (commit_height_extent tileOfVolume offsetFails
           squarePicked (reset squarePicked) (mkNavMesh [])
           (mkNavMesh [squareVolume]) [1%N] squareVolume).
  - vm_compute. reflexivity.
  - reflexivity.
  - repeat constructor.
Defined.

Lemma commit_without_shape_witness :
  CreateShape noTiles offsetFails (w_state twoPicked) (mkNavMesh [])
  = (reset (w_state twoPicked), mkNavMesh [], []).
Proof.
  apply (commit_without_shape noTiles offsetFails distSqr3
           (w_state twoPicked) (mkNavMesh [])).
  cbn. lia.
Defined.

Lemma colinear3_never_wrapped (fuel : nat) : convexhull fuel colinear3 = None.
Proof.
  destruct fuel as [|fuel]; [reflexivity|].
  unfold convexhull.
  rewrite colinear3_start, giftWrap_S, (proj1 colinear3_next).
  cbn [app nth Nat.eqb].
  apply colinear3_wraps_forever; [lia|reflexivity].
Qed.

(** C6: the click that should append a point and recompute the hull does
    not always do so.  The session with (1,0,0) and (2,0,0) picked is
    reachable, collects points (no volume is selected) and has a points
    buffer that is not empty; a click at (0,0,0) without shift and without
    alt is not within the tolerance of the last picked point, so it is not a
    commit; and yet it appends nothing and leaves no hull: the call of
    [convexhull] on the three points never ends, so for no amount of fuel
    the click returns, whatever squared distance (not below the tolerance
    there), offsetter and mesh it runs with. *)
Theorem click_on_a_line_never_returns :
  reachable noTiles offsetFails distSqr3 twoPicked
  /\ m_currentVolumeId (w_state twoPicked) = 0%N
  /\ m_pts (w_state twoPicked) = [pointZ 1 0 0; pointZ 2 0 0]
  /\ F32.lt (distSqr3 (pointZ 0 0 0)
               (last (m_pts (w_state twoPicked)) vec3_zero))
       closeTolerance = false
  /\ (forall (tilesOf : NavMesh -> N -> list dtTileRef)
             (rcOffsetPoly : list vec3 -> F32.float -> nat -> Z * list vec3)
             (distSqr : vec3 -> vec3 -> F32.float),
        F32.lt (distSqr (pointZ 0 0 0) (pointZ 2 0 0)) closeTolerance
        = false ->
        forall fuel nm,
          handleVolumeClick tilesOf rcOffsetPoly distSqr fuel (pointZ 0 0 0)
            false false (w_state twoPicked) nm = None).
Proof.
  split; [exact twoPicked_reachable|].
  split; [reflexivity|]. split; [reflexivity|].
  split; [vm_compute; reflexivity|].
  intros tilesOf rcOffsetPoly distSqr Hfar fuel nm.
  unfold handleVolumeClick.
  change (m_pts (w_state twoPicked)) with [pointZ 1 0 0; pointZ 2 0 0].
  cbn [length Nat.ltb Nat.leb last andb orb app].
  rewrite Hfar. cbn [orb andb].
  change [pointZ 1 0 0; pointZ 2 0 0; pointZ 0 0 0] with colinear3.
  rewrite colinear3_never_wrapped. reflexivity.
Qed.

Lemma click_on_a_line_never_returns_witness :
  handleVolumeClick noTiles offsetFails distSqr3 7 (pointZ 0 0 0) false false
    (w_state twoPicked) (mkNavMesh []) = None.
Proof.
  pose proof click_on_a_line_never_returns as (_ & _ & _ & _ & H).
  apply (H noTiles offsetFails distSqr3).
  vm_compute. reflexivity.
Defined.

(** ** Deleting by click *)

Lemma toggle_fold_parity (g : nat -> bool) (l : list nat) :
  forall c,
    fold_left (fun c i => if g i then negb c else c) l c
    = xorb c (Nat.odd (length (filter g l))).
Proof.
  induction l as [|i l IH]; intros c; cbn [fold_left filter].
  - cbn. rewrite xorb_false_r. reflexivity.
  - rewrite IH. destruct (g i); [|reflexivity].
    cbn [length]. rewrite Nat.odd_succ, <- Nat.negb_odd.
    destruct c, (Nat.odd (length (filter g l))); reflexivity.
Qed.

(** [pointInPoly] answers "inside" exactly on an odd number of crossings. *)
Lemma pointInPoly_parity (vs : list vec3) (p : vec3) :
  pointInPoly vs p = Nat.odd (crossingNumber vs p).
Proof.
  unfold pointInPoly, crossingNumber.
  rewrite (toggle_fold_parity (edgeCrossed vs p)). reflexivity.
Qed.

Lemma hit_iff (p : vec3) (vol : ConvexVolume) :
  hit p vol = true <->
  Nat.odd (crossingNumber (verts vol) p) = true
  /\ F32.le (hmin vol) (vy p) = true /\ F32.le (vy p) (hmax vol) = true.
Proof.
  unfold hit. rewrite pointInPoly_parity, !andb_true_iff.
  unfold F32.ge, F32.le. tauto.
Qed.

(** The delete loop stops at the first volume that is hit. *)
Lemma findHit_first (p : vec3) (vols : list ConvexVolume) :
  forall k,
    match findHit p vols k with
    | Some i =>
        exists before v after,
          vols = before ++ v :: after /\ i = k + length before
          /\ Forall (fun u => hit p u = false) before /\ hit p v = true
    | None => Forall (fun u => hit p u = false) vols
    end.
Proof.
  induction vols as [|u vols IH]; intros k; cbn [findHit].
  - constructor.
  - destruct (hit p u) eqn:E.
    + exists [], u, vols. cbn. repeat split; [lia|constructor|exact E].
    + specialize (IH (S k)). destruct (findHit p vols (S k)) as [i|].
      * destruct IH as (before & v & after & -> & -> & Hb & Hv).
        exists (u :: before), v, after. cbn.
        repeat split; [lia|constructor; assumption|exact Hv].
      * constructor; assumption.
Qed.

Lemma removeFirstById_unique (before after : list ConvexVolume)
    (v : ConvexVolume) :
  ~ In (id v) (map id before) ->
  removeFirstById (id v) (before ++ v :: after) = before ++ after.
Proof.
  induction before as [|u before IH]; intros Hn; cbn [app removeFirstById].
  - rewrite N.eqb_refl. reflexivity.
  - destruct (N.eqb_spec (id u) (id v)) as [E|E].
    + exfalso. apply Hn. left. exact E.
    + rewrite IH; [reflexivity|]. intros H. apply Hn. right. exact H.
Qed.

Section Delete.

Variable tilesOf : NavMesh -> N -> list dtTileRef.
Variable rcOffsetPoly : list vec3 -> F32.float -> nat -> Z * list vec3.
Variable distSqr : vec3 -> vec3 -> F32.float.

(** What a click with shift does to the session and the mesh. *)
Lemma handleVolumeClick_shift (fuel : nat) (p : vec3) (alt : bool)
    (s : ConvexVolumeToolState) (nm : NavMesh) :
  (Forall (fun u => hit p u = false) (m_volumes nm)
   /\ handleVolumeClick tilesOf rcOffsetPoly distSqr fuel p true alt s nm
      = Some (s, nm, []))
  \/ (exists before v after,
        m_volumes nm = before ++ v :: after
        /\ Forall (fun u => hit p u = false) before /\ hit p v = true
        /\ handleVolumeClick tilesOf rcOffsetPoly distSqr fuel p true alt
             s nm
           = Some (s, DeleteConvexVolumeById nm (id v), tilesOf nm (id v))).
Proof.
  unfold handleVolumeClick.
  pose proof (findHit_first p (m_volumes nm) 0) as H.
  destruct (findHit p (m_volumes nm) 0) as [i|].
  - right. destruct H as (before & v & after & Hvols & -> & Hb & Hv).
    exists before, v, after. repeat split; try assumption.
    unfold GetConvexVolume. rewrite Hvols. cbn [Nat.add].
    rewrite nth_error_app2 by lia. rewrite Nat.sub_diag. reflexivity.
  - left. split; [exact H|reflexivity].
Qed.

(** C3: on a click with shift a volume is hit exactly when the
    crossing-number test finds the click inside its polygon (an odd number
    of crossed edges on the horizontal projection) and
    [hmin <= p.y <= hmax]; the volume that is deleted is the first one, in
    the order of the registry, that is hit, whatever else contains the
    point, and the tiles to rebuild are those of that volume.  Without a
    hit nothing changes.  The registry holds each id once. *)
Theorem shift_click_deletes_first_hit (fuel : nat) (p : vec3) (alt : bool)
    (s : ConvexVolumeToolState) (nm : NavMesh) :
  NoDup (map id (m_volumes nm)) ->
  (forall vol,
     hit p vol = true <->
     Nat.odd (crossingNumber (verts vol) p) = true
     /\ F32.le (hmin vol) (vy p) = true
     /\ F32.le (vy p) (hmax vol) = true)
  /\ ((Forall (fun u => hit p u = false) (m_volumes nm)
       /\ handleVolumeClick tilesOf rcOffsetPoly distSqr fuel p true alt
            s nm
          = Some (s, nm, []))
      \/ (exists before v after,
            m_volumes nm = before ++ v :: after
            /\ Forall (fun u => hit p u = false) before
            /\ hit p v = true
            /\ handleVolumeClick tilesOf rcOffsetPoly distSqr fuel p true
                 alt s nm
               = Some (s, mkNavMesh (before ++ after),
                       tilesOf nm (id v)))).
Proof.
  intros Hnd. split; [intros vol; apply hit_iff|].
  destruct (handleVolumeClick_shift fuel p alt s nm)
    as [H|(before & v & after & Hvols & Hb & Hv & Hr)].
  - left. exact H.
  - right. exists before, v, after. repeat split; try assumption.
    rewrite Hr. unfold DeleteConvexVolumeById. rewrite Hvols.
    rewrite removeFirstById_unique; [reflexivity|].
    rewrite Hvols, map_app in Hnd. cbn [map] in Hnd.
    apply NoDup_remove_2 in Hnd.
    intros Hin. apply Hnd. apply in_or_app. left. exact Hin.
Qed.

(** C7, amended: a click with shift runs the delete-mode hit test over
    the volumes of the registry only while no volume is selected
    ([currentVolumeId = 0]); it then deletes the first volume that is hit
    and requests the rebuild of its tiles.  While a volume is selected
    ([currentVolumeId <> 0]) the click is ignored: nothing is tested,
    deleted or rebuilt. *)
Theorem shift_click_needs_no_selection (fuel : nat) (p : vec3) (alt : bool)
    (w : World) :
  reachable tilesOf rcOffsetPoly distSqr w ->
  (m_currentVolumeId (w_state w) <> 0%N ->
   handleClick tilesOf rcOffsetPoly distSqr fuel p true alt w = Some w)
  /\ (m_currentVolumeId (w_state w) = 0%N ->
      (Forall (fun u => hit p u = false) (m_volumes (w_navMesh w))
       /\ handleClick tilesOf rcOffsetPoly distSqr fuel p true alt w
          = Some (mkWorld (w_state w) true (w_navMesh w) (w_rebuilt w)))
      \/ (exists before v after,
            m_volumes (w_navMesh w) = before ++ v :: after
            /\ Forall (fun u => hit p u = false) before
            /\ hit p v = true
            /\ handleClick tilesOf rcOffsetPoly distSqr fuel p true alt w
               = Some (mkWorld (w_state w) true
                         (DeleteConvexVolumeById (w_navMesh w) (id v))
                         (rebuildTiles (tilesOf (w_navMesh w) (id v))
                            (w_rebuilt w))))).
Proof.
  intros Hr. apply reachable_inv in Hr. split.
  - intros Hid. destruct (inv_selected _ Hr Hid) as (He & _).
    unfold handleClick.
    replace (m_currentVolumeId (w_state w) =? 0)%N with false
      by (symmetry; apply N.eqb_neq; exact Hid).
    rewrite He. cbn [negb]. destruct w. cbn in *. subst. reflexivity.
  - intros Hid. unfold handleClick. rewrite Hid. cbn [N.eqb negb].
    destruct (handleVolumeClick_shift fuel p alt (w_state w) (w_navMesh w))
      as [[Hn H]|(before & v & after & Hvols & Hb & Hv & H)].
    + left. split; [exact Hn|]. rewrite H. reflexivity.
    + right. exists before, v, after. repeat split; try assumption.
      rewrite H. reflexivity.
Qed.

End Delete.

(** Both volumes contain the point (5, 2, 5); the click deletes the outer
    one, which the registry lists first. *)
Example shift_click_on_nested_volumes :
  hit (pointZ 5 2 5) outerVolume = true
  /\ hit (pointZ 5 2 5) squareVolume = true
  /\ handleVolumeClick tileOfVolume offsetFails distSqr3 2 (pointZ 5 2 5)
       true false freshState nestedMesh
     = Some (freshState, mkNavMesh [squareVolume], [2%N]).
Proof. vm_compute. auto. Qed.

Lemma shift_click_deletes_first_hit_witness :
  (forall vol,
     hit (pointZ 5 2 5) vol = true <->
     Nat.odd (crossingNumber (verts vol) (pointZ 5 2 5)) = true
     /\ F32.le (hmin vol) (vy (pointZ 5 2 5)) = true
     /\ F32.le (vy (pointZ 5 2 5)) (hmax vol) = true)
  /\ ((Forall (fun u => hit (pointZ 5 2 5) u = false) (m_volumes nestedMesh)
       /\ handleVolumeClick tileOfVolume offsetFails distSqr3 2
            (pointZ 5 2 5) true false freshState nestedMesh
          = Some (freshState, nestedMesh, []))
      \/ (exists before v after,
            m_volumes nestedMesh = before ++ v :: after
            /\ Forall (fun u => hit (pointZ 5 2 5) u = false) before
            /\ hit (pointZ 5 2 5) v = true
            /\ handleVolumeClick tileOfVolume offsetFails distSqr3 2
                 (pointZ 5 2 5) true false freshState nestedMesh
               = Some (freshState, mkNavMesh (before ++ after),
                       tileOfVolume nestedMesh (id v)))).
Proof.
  apply (shift_click_deletes_first_hit tileOfVolume offsetFails distSqr3 2
           (pointZ 5 2 5) false freshState nestedMesh).
  cbn. repeat constructor; cbn; intros H; decompose [or] H;
    try discriminate; assumption.
Defined.

Lemma selectedWorld_reachable :
  reachable tileOfVolume offsetFails distSqr3 selectedWorld.
Proof.
  apply reach_step with (w := squareWorld) (op := Menu (ClickVolume 0)).
  - apply reach_initial. repeat split.
  - apply (step_menu tileOfVolume offsetFails distSqr3 squareWorld
             (ClickVolume 0)).
Qed.

(** C7, as stated, fails: with the square volume selected, a click with
    shift inside that volume deletes nothing and requests no rebuild; the
    same click deletes the volume when nothing is selected. *)
Lemma shift_click_ignored_on_selection :
  reachable tileOfVolume offsetFails distSqr3 selectedWorld
  /\ m_currentVolumeId (w_state selectedWorld) = 1%N
  /\ hit (pointZ 5 2 5) squareVolume = true
  /\ handleClick tileOfVolume offsetFails distSqr3 2 (pointZ 5 2 5) true false
       selectedWorld = Some selectedWorld
  /\ handleClick tileOfVolume offsetFails distSqr3 2 (pointZ 5 2 5) true false
       squareWorld = Some (mkWorld freshState true (mkNavMesh []) [[1%N]]).
Proof.
  split; [exact selectedWorld_reachable|].
  vm_compute. auto.
Qed.

Lemma shift_click_needs_no_selection_witness :
  handleClick tileOfVolume offsetFails distSqr3 2 (pointZ 5 2 5) true false
    selectedWorld = Some selectedWorld.
Proof.
  apply (proj1 (shift_click_needs_no_selection tileOfVolume offsetFails
                  distSqr3 2 (pointZ 5 2 5) false selectedWorld
                  selectedWorld_reachable)).
  discriminate.
Defined.

(** ** Selection against collection, and what a reset keeps *)

Section Selection.

Variable tilesOf : NavMesh -> N -> list dtTileRef.
Variable rcOffsetPoly : list vec3 -> F32.float -> nat -> Z * list vec3.
Variable distSqr : vec3 -> vec3 -> F32.float.

(** The menu either leaves both buffers alone or empties both. *)
Lemma handleMenu_buffers (ev : MenuEvent) (w : World) :
  let w' := handleMenu tilesOf rcOffsetPoly ev w in
  (m_pts (w_state w') = m_pts (w_state w)
   /\ m_hull (w_state w') = m_hull (w_state w))
  \/ (m_pts (w_state w') = [] /\ m_hull (w_state w') = []).
Proof.
  destruct w as [s editing nm log].
  destruct ev; unfold handleMenu;
    cbn [w_state w_editing w_navMesh w_rebuilt].
  - destruct (GetConvexVolume nm row) as [volume|]; [|auto].
    destruct (negb (m_currentVolumeId s =? id volume)%N); cbn; auto.
  - cbn; auto.
  - destruct (negb editing && negb (m_currentVolumeId s =? 0)%N); cbn; auto.
  - destruct editing; cbn; auto.
  - destruct editing; cbn; auto.
  - destruct editing; cbn; auto.
  - destruct editing; cbn; auto.
  - destruct editing; cbn; auto.
  - destruct (editing && (2 <? length (m_hull s))); [|cbn; auto].
    pose proof (CreateShape_resets tilesOf rcOffsetPoly s nm) as Hr.
    destruct (CreateShape tilesOf rcOffsetPoly s nm) as [[s' nm'] tiles].
    cbn in Hr. subst s'. cbn. auto.
  - destruct editing; cbn; auto.
  - destruct (negb editing && negb (m_currentVolumeId s =? 0)%N); cbn; auto.
  - destruct (negb editing && negb (m_currentVolumeId s =? 0)%N); cbn; auto.
  - destruct (negb editing && negb (m_currentVolumeId s =? 0)%N); cbn; auto.
  - destruct (negb editing && negb (m_currentVolumeId s =? 0)%N); cbn; auto.
  - destruct (negb editing && negb (m_currentVolumeId s =? 0)%N
              && m_modified s); [|cbn; auto].
    destruct (GetConvexVolumeById nm (m_currentVolumeId s)); cbn; auto.
Qed.

(** C8: in every state the tool can reach, a selected volume
    ([currentVolumeId <> 0]) means that the points and the hull buffer are
    empty.  Selecting a volume from the list empties both and sets
    [currentVolumeId]; "Create New" clears [currentVolumeId] and the edit
    buffer; and whatever happens while a volume is selected leaves the
    points and the hull empty. *)
Theorem selection_excludes_points :
  (forall w,
     reachable tilesOf rcOffsetPoly distSqr w ->
     m_currentVolumeId (w_state w) <> 0%N ->
     m_pts (w_state w) = [] /\ m_hull (w_state w) = [])
  /\ (forall w row volume,
        GetConvexVolume (w_navMesh w) row = Some volume ->
        id volume <> m_currentVolumeId (w_state w) ->
        let w' := handleMenu tilesOf rcOffsetPoly (ClickVolume row) w in
        m_currentVolumeId (w_state w') = id volume
        /\ m_pts (w_state w') = [] /\ m_hull (w_state w') = [])
  /\ (forall w,
        let w' := handleMenu tilesOf rcOffsetPoly ClickCreateNew w in
        m_currentVolumeId (w_state w') = 0%N
        /\ m_editVolume (w_state w') = ConvexVolume_empty
        /\ w_editing w' = true)
  /\ (forall w op w',
        reachable tilesOf rcOffsetPoly distSqr w ->
        m_currentVolumeId (w_state w) <> 0%N ->
        step tilesOf rcOffsetPoly distSqr w op w' ->
        m_pts (w_state w') = [] /\ m_hull (w_state w') = []).
Proof.
  assert (Hsel : forall w,
             reachable tilesOf rcOffsetPoly distSqr w ->
             m_currentVolumeId (w_state w) <> 0%N ->
             w_editing w = false /\ m_pts (w_state w) = []
             /\ m_hull (w_state w) = []).
  { intros w Hr. apply reachable_inv in Hr. apply (inv_selected _ Hr). }
  split; [|split; [|split]].
  - intros w Hr Hid. destruct (Hsel w Hr Hid) as (_ & Hp & Hu). auto.
  - intros w row volume Hrow Hne. cbn zeta. unfold handleMenu.
    rewrite Hrow.
    replace (m_currentVolumeId (w_state w) =? id volume)%N with false
      by (symmetry; apply N.eqb_neq; congruence).
    cbn. auto.
  - intros w. cbn. auto.
  - intros w op w' Hr Hid Hstep.
    destruct (Hsel w Hr Hid) as (He & Hp & Hu).
    destruct Hstep as [w ev|w p shift alt fuel w' Hc|w].
    + destruct (handleMenu_buffers ev w) as [[-> ->]|[-> ->]]; auto.
    + unfold handleClick in Hc.
      replace (m_currentVolumeId (w_state w) =? 0)%N with false in Hc
        by (symmetry; apply N.eqb_neq; exact Hid).
      rewrite He in Hc. cbn [negb] in Hc. injection Hc as <-. cbn. auto.
    + cbn. auto.
Qed.

(** C10: a session reset empties the points and the hull, clears
    [currentVolumeId], the edit buffer, the dirty flag and the name, and
    keeps [boxHeight], [boxDescent], [polyOffset] and [areaType].  Cancel
    and every commit (whether it created a volume or not) leave exactly the
    reset session; selecting a volume leaves the reset session with the
    volume loaded into the edit buffer and [currentVolumeId]. *)
Theorem reset_keeps_shape_parameters :
  (forall s,
     (m_pts (reset s) = [] /\ m_hull (reset s) = []
      /\ m_currentVolumeId (reset s) = 0%N
      /\ m_editVolume (reset s) = ConvexVolume_empty
      /\ m_modified (reset s) = false
      /\ c_str (m_name (reset s)) = [])
     /\ (m_boxHeight (reset s) = m_boxHeight s
         /\ m_boxDescent (reset s) = m_boxDescent s
         /\ m_polyOffset (reset s) = m_polyOffset s
         /\ m_areaType (reset s) = m_areaType s))
  /\ (forall s nm,
        fst (fst (CreateShape tilesOf rcOffsetPoly s nm)) = reset s)
  /\ (forall w,
        w_editing w = true ->
        w_state (handleMenu tilesOf rcOffsetPoly ClickCancel w)
        = reset (w_state w))
  /\ (forall w row volume,
        GetConvexVolume (w_navMesh w) row = Some volume ->
        id volume <> m_currentVolumeId (w_state w) ->
        w_state (handleMenu tilesOf rcOffsetPoly (ClickVolume row) w)
        = loadVolume volume (reset (w_state w))).
Proof.
  split; [|split; [|split]].
  - intros s. split; [|repeat split].
    repeat split. cbn. destruct (m_name s); reflexivity.
  - intros s nm. apply CreateShape_resets.
  - intros w He. unfold handleMenu. rewrite He. reflexivity.
  - intros w row volume Hrow Hne. unfold handleMenu. rewrite Hrow.
    replace (m_currentVolumeId (w_state w) =? id volume)%N with false
      by (symmetry; apply N.eqb_neq; congruence).
    reflexivity.
Qed.

End Selection.

Lemma selection_excludes_points_witness :
  (m_pts (w_state selectedWorld) = [] /\ m_hull (w_state selectedWorld) = [])
  /\ (m_currentVolumeId
        (w_state (handleMenu tileOfVolume offsetFails (ClickVolume 0)
                    squareWorld)) = 1%N)
  /\ (m_pts (w_state (toolReset selectedWorld)) = []).
Proof.
  pose proof (selection_excludes_points tileOfVolume offsetFails distSqr3)
    as (H1 & H2 & _ & H4).
  split; [|split].
  - apply (H1 selectedWorld selectedWorld_reachable). discriminate.
  - apply (H2 squareWorld 0 squareVolume); [reflexivity|discriminate].
  - apply (H4 selectedWorld ToolReset (toolReset selectedWorld)
             selectedWorld_reachable); [discriminate|apply step_reset].
Defined.

Lemma reset_keeps_shape_parameters_witness :
  w_state (handleMenu tileOfVolume offsetFails ClickCancel squareEditing)
  = reset squarePickedOffset
  /\ m_polyOffset (reset squarePickedOffset) = F32.of_Z 1
  /\ w_state (handleMenu tileOfVolume offsetFails (ClickVolume 0)
                squareEditing)
     = loadVolume squareVolume (reset squarePickedOffset).
Proof.
  pose proof (reset_keeps_shape_parameters tileOfVolume offsetFails)
    as (H1 & _ & H3 & H4).
  split; [|split].
  - apply (H3 squareEditing). reflexivity.
  - apply (H1 squarePickedOffset).
  - apply (H4 squareEditing 0 squareVolume); [reflexivity|discriminate].
Defined.

(** * Further properties of the code *)

(** ** The shape of a hull *)

Lemma wrapFrom_S (pts : list vec3) (h n : nat) :
  wrapFrom pts h (S n) = h :: wrapFrom pts (nextPoint pts h) n.
Proof.
  unfold wrapFrom. cbn [seq map Nat.iter nat_rect].
  f_equal. rewrite <- seq_shift, map_map.
  apply map_ext. intros i. apply Nat.iter_succ_r.
Qed.

Lemma wrapFrom_length (pts : list vec3) (h n : nat) :
  length (wrapFrom pts h n) = n.
Proof. unfold wrapFrom. rewrite length_map, length_seq. reflexivity. Qed.

(** The loop, once [out] is not empty: it appends the orbit of [hull] up to
    the first return to [out[0]]. *)
Lemma giftWrap_orbit (pts : list vec3) (fuel : nat) :
  forall hull out res,
    out <> [] ->
    giftWrap fuel pts hull out = Some res ->
    exists k,
      res = out ++ wrapFrom pts hull (S k)
      /\ Nat.iter (S k) (nextPoint pts) hull = nth 0 out 0
      /\ forall i, 1 <= i <= k ->
                   Nat.iter i (nextPoint pts) hull <> nth 0 out 0.
Proof.
  induction fuel as [|fuel IH]; intros hull out res Hne H; [discriminate H|].
  rewrite giftWrap_S in H.
  assert (Hhead : nth 0 (out ++ [hull]) 0 = nth 0 out 0)
    by (destruct out; [congruence|reflexivity]).
  rewrite Hhead in H.
  destruct (Nat.eqb_spec (nextPoint pts hull) (nth 0 out 0)) as [E|E].
  - injection H as <-. exists 0. split; [reflexivity|]. split; [exact E|].
    intros i Hi. lia.
  - apply IH in H; [|destruct out; discriminate].
    destruct H as (k & Hres & Hback & Hnot).
    rewrite Hhead in Hback, Hnot.
    exists (S k). split; [|split].
    + rewrite Hres, <- app_assoc, (wrapFrom_S pts hull (S k)). reflexivity.
    + rewrite Nat.iter_succ_r. exact Hback.
    + intros [|i] Hi; [lia|]. rewrite Nat.iter_succ_r.
      destruct i as [|i]; [exact E|]. apply Hnot. lia.
Qed.

(** What [convexhull] returns is the orbit of the lower-left point under
    "next point", cut at its first return to the start. *)
Lemma convexhull_orbit (fuel : nat) (pts : list vec3) (res : list nat) :
  convexhull fuel pts = Some res ->
  exists k,
    res = wrapFrom pts (lowerLeft pts) (S k)
    /\ Nat.iter (S k) (nextPoint pts) (lowerLeft pts) = lowerLeft pts
    /\ forall i, 1 <= i <= k ->
                 Nat.iter i (nextPoint pts) (lowerLeft pts) <> lowerLeft pts.
Proof.
  unfold convexhull. destruct fuel as [|fuel]; [discriminate|].
  rewrite giftWrap_S. cbn [app nth].
  destruct (Nat.eqb_spec (nextPoint pts (lowerLeft pts)) (lowerLeft pts))
    as [E|E].
  - intros H. injection H as <-. exists 0. split; [reflexivity|].
    split; [exact E|]. intros i Hi. lia.
  - intros H. apply giftWrap_orbit in H; [|discriminate].
    destruct H as (k & Hres & Hback & Hnot). cbn [nth] in Hback, Hnot.
    exists (S k). split; [|split].
    + rewrite Hres, (wrapFrom_S pts (lowerLeft pts) (S k)). reflexivity.
    + rewrite Nat.iter_succ_r. exact Hback.
    + intros [|i] Hi; [lia|]. rewrite Nat.iter_succ_r.
      destruct i as [|i]; [exact E|]. apply Hnot. lia.
Qed.

(** An orbit that first returns to its start after [S k] steps visits
    [S k] different indices. *)
Lemma wrapFrom_NoDup (pts : list vec3) (h k : nat) :
  Nat.iter (S k) (nextPoint pts) h = h ->
  (forall i, 1 <= i <= k -> Nat.iter i (nextPoint pts) h <> h) ->
  NoDup (wrapFrom pts h (S k)).
Proof.
  intros Hback Hnot. unfold wrapFrom.
  apply NoDup_map_NoDup_ForallPairs; [|apply seq_NoDup].
  assert (Hlt : forall i j, i < j -> j <= k ->
            Nat.iter i (nextPoint pts) h <> Nat.iter j (nextPoint pts) h).
  { intros i j Hij Hjk E.
    apply (Hnot (S k - j + i)); [lia|].
    rewrite Nat.iter_add, E, <- Nat.iter_add.
    replace (S k - j + j) with (S k) by lia. exact Hback. }
  intros i j Hi Hj E. apply in_seq in Hi, Hj.
  destruct (Nat.lt_trichotomy i j) as [Hij|[Hij|Hij]]; [|exact Hij|].
  - exfalso. apply (Hlt i j); [exact Hij|lia|exact E].
  - exfalso. apply (Hlt j i); [exact Hij|lia|symmetry; exact E].
Qed.

Lemma convexhull_NoDup (fuel : nat) (pts : list vec3) (res : list nat) :
  convexhull fuel pts = Some res -> NoDup res.
Proof.
  intros H. apply convexhull_orbit in H.
  destruct H as (k & -> & Hback & Hnot).
  apply wrapFrom_NoDup; assumption.
Qed.

Lemma convexhull_length (fuel : nat) (pts : list vec3) (res : list nat) :
  pts <> [] -> convexhull fuel pts = Some res -> length res <= length pts.
Proof.
  intros Hne H.
  rewrite <- (length_seq (length pts) 0).
  apply NoDup_incl_length; [eapply convexhull_NoDup; exact H|].
  intros h Hh. apply in_seq.
  pose proof (convexhull_indices_in_range fuel pts res Hne H) as Hr.
  rewrite Forall_forall in Hr. specialize (Hr h Hh). lia.
Qed.

(** X1: when [convexhull] returns on a vector of points that is not empty,
    the hull lists only indices of points, lists none of them twice, and so
    has at most as many entries as there are points. *)
Theorem convexhull_distinct_indices
    (fuel : nat) (pts : list vec3) (res : list nat) :
  pts <> [] ->
  convexhull fuel pts = Some res ->
  Forall (fun h => h < length pts) res
  /\ NoDup res
  /\ length res <= length pts.
Proof.
  intros Hne H. split; [|split].
  - apply (convexhull_indices_in_range fuel); assumption.
  - apply (convexhull_NoDup fuel pts). exact H.
  - apply (convexhull_length fuel); assumption.
Qed.

Lemma convexhull_distinct_indices_witness :
  Forall (fun h => h < 4) [0; 1; 2; 3]
  /\ NoDup [0; 1; 2; 3]
  /\ 4 <= 4.
Proof.
  apply (convexhull_distinct_indices 5 squarePoints [0; 1; 2; 3]).
  - discriminate.
  - vm_compute. reflexivity.
Defined.

(** The loop that picks the next point keeps away from [hull] itself. *)
Lemma nextPoint_fold_moves (pts : list vec3) (hull : nat) (l : list nat) :
  forall endpt,
    endpt <> hull ->
    fold_left
      (fun endpt j =>
         if (hull =? endpt) || left (at_ pts hull) (at_ pts endpt) (at_ pts j)
         then j else endpt) l endpt <> hull.
Proof.
  induction l as [|j l IH]; intros endpt He; cbn [fold_left]; [exact He|].
  apply IH.
  destruct (Nat.eqb_spec hull endpt) as [E|E]; [congruence|]. cbn [orb].
  destruct (left (at_ pts hull) (at_ pts endpt) (at_ pts j)) eqn:El;
    [|exact He].
  intros ->. rewrite left_self in El. discriminate El.
Qed.

(** With two points or more, the point after [hull] is another index. *)
Lemma nextPoint_moves (pts : list vec3) (hull : nat) :
  2 <= length pts -> nextPoint pts hull <> hull.
Proof.
  intros Hn. unfold nextPoint.
  destruct (length pts) as [|[|n]] eqn:E; try lia.
  cbn [Nat.sub seq fold_left].
  apply nextPoint_fold_moves.
  destruct (Nat.eqb_spec hull 0) as [E0|E0]; cbn [orb]; [lia|].
  destruct (left (at_ pts hull) (at_ pts 0) (at_ pts 1)) eqn:El; [|lia].
  intros <-. rewrite left_self in El. discriminate El.
Qed.

Lemma convexhull_two_entries (fuel : nat) (pts : list vec3) (res : list nat) :
  2 <= length pts -> convexhull fuel pts = Some res -> 2 <= length res.
Proof.
  intros Hn H. apply convexhull_orbit in H.
  destruct H as (k & -> & Hback & _).
  rewrite wrapFrom_length.
  destruct k as [|k]; [|lia].
  exfalso. apply (nextPoint_moves pts (lowerLeft pts) Hn). exact Hback.
Qed.

(** X2: on two points or more, a hull that [convexhull] returns has at
    least two entries: the point after a hull point is never that point
    itself. *)
Theorem convexhull_at_least_two
    (fuel : nat) (pts : list vec3) (res : list nat) :
  2 <= length pts ->
  convexhull fuel pts = Some res ->
  2 <= length res
  /\ forall hull, nextPoint pts hull <> hull.
Proof.
  intros Hn H. split.
  - apply (convexhull_two_entries fuel pts); assumption.
  - intros hull. apply nextPoint_moves. exact Hn.
Qed.

Lemma convexhull_at_least_two_witness :
  2 <= length [0; 1; 2; 3]
  /\ forall hull, nextPoint squarePoints hull <> hull.
Proof.
  apply (convexhull_at_least_two 5 squarePoints [0; 1; 2; 3]).
  - cbn. lia.
  - vm_compute. reflexivity.
Defined.

(** ** Points of which none is to the left of another *)

Lemma fold_left_fixed (step : nat -> nat -> nat) (l : list nat) (e : nat) :
  (forall j, In j l -> step e j = e) -> fold_left step l e = e.
Proof.
  induction l as [|j l IH]; intros H; cbn [fold_left]; [reflexivity|].
  rewrite (H j) by (left; reflexivity).
  apply IH. intros j' Hj'. apply H. right. exact Hj'.
Qed.

Section Colinear.

Variable pts : list vec3.

Hypothesis enough : 2 <= length pts.

Hypothesis none_left :
  forall i j k,
    i < length pts -> j < length pts -> k < length pts ->
    left (at_ pts i) (at_ pts j) (at_ pts k) = false.

Lemma colinear_next_0 : nextPoint pts 0 = 1.
Proof.
  unfold nextPoint.
  destruct (length pts) as [|[|n]] eqn:E; try lia.
  cbn [Nat.sub seq fold_left Nat.eqb orb].
  apply fold_left_fixed. intros j Hj. apply in_seq in Hj.
  cbn [Nat.eqb orb]. rewrite none_left by lia. reflexivity.
Qed.

Lemma colinear_next_S (hull : nat) :
  0 < hull < length pts -> nextPoint pts hull = 0.
Proof.
  intros Hh. unfold nextPoint.
  apply fold_left_fixed. intros j Hj. apply in_seq in Hj.
  replace (hull =? 0) with false by (symmetry; apply Nat.eqb_neq; lia).
  cbn [orb]. rewrite none_left by lia. reflexivity.
Qed.

(** From index 0 or 1 the wrap never reaches an index from 2 on. *)
Lemma colinear_wraps_forever (fuel : nat) :
  forall hull out,
    hull < 2 -> 2 <= nth 0 out 0 ->
    giftWrap fuel pts hull out = None.
Proof.
  induction fuel as [|fuel IH]; intros hull out Hh Ho; [reflexivity|].
  rewrite giftWrap_S.
  assert (Ho' : nth 0 (out ++ [hull]) 0 = nth 0 out 0).
  { destruct out as [|o out]; [cbn in Ho; lia|reflexivity]. }
  rewrite Ho'.
  destruct hull as [|[|hull]]; [| |lia].
  - rewrite colinear_next_0.
    replace (1 =? nth 0 out 0) with false
      by (symmetry; apply Nat.eqb_neq; lia).
    apply IH; [lia|rewrite Ho'; exact Ho].
  - rewrite colinear_next_S by lia.
    replace (0 =? nth 0 out 0) with false
      by (symmetry; apply Nat.eqb_neq; lia).
    apply IH; [lia|rewrite Ho'; exact Ho].
Qed.

(** X3: on two or more points of which none lies strictly to the left of an
    edge between two others (points on one line, or equal points),
    [convexhull] returns exactly when the lower-left point is the first or
    the second point, and the hull is then just the indices 0 and 1,
    whatever the other points are; with the lower-left point at index 2 or
    later the loop never ends. *)
Theorem convexhull_on_a_line :
  (lowerLeft pts = 0 ->
   forall fuel, convexhull (S (S fuel)) pts = Some [0; 1])
  /\ (lowerLeft pts = 1 ->
      forall fuel, convexhull (S (S fuel)) pts = Some [1; 0])
  /\ (2 <= lowerLeft pts -> forall fuel, convexhull fuel pts = None).
Proof.
  unfold convexhull. split; [|split]; intros Hl fuel.
  - rewrite Hl, giftWrap_S, colinear_next_0. cbn [app nth Nat.eqb].
    rewrite giftWrap_S, colinear_next_S by lia. reflexivity.
  - rewrite Hl, giftWrap_S, colinear_next_S by lia. cbn [app nth Nat.eqb].
    rewrite giftWrap_S, colinear_next_0. reflexivity.
  - destruct fuel as [|fuel]; [reflexivity|].
    pose proof (lowerLeft_range pts) as Hr.
    rewrite giftWrap_S, colinear_next_S by lia. cbn [app nth].
    replace (0 =? lowerLeft pts) with false
      by (symmetry; apply Nat.eqb_neq; lia).
    apply colinear_wraps_forever; [lia|exact Hl].
Qed.

End Colinear.

(** Three points on one line, the leftmost picked first. *)
Lemma line3_none_left :
  forall i j k,
    i < 3 -> j < 3 -> k < 3 ->
    left (at_ [pointZ 0 0 0; pointZ 1 0 0; pointZ 2 0 0] i)
         (at_ [pointZ 0 0 0; pointZ 1 0 0; pointZ 2 0 0] j)
         (at_ [pointZ 0 0 0; pointZ 1 0 0; pointZ 2 0 0] k) = false.
Proof.
  intros i j k Hi Hj Hk.
  destruct i as [|[|[|i]]]; try lia;
    destruct j as [|[|[|j]]]; try lia;
      destruct k as [|[|[|k]]]; try lia; vm_compute; reflexivity.
Qed.

Lemma convexhull_on_a_line_witness :
  convexhull 2 [pointZ 0 0 0; pointZ 1 0 0; pointZ 2 0 0] = Some [0; 1].
Proof.
  apply (proj1 (convexhull_on_a_line
                  [pointZ 0 0 0; pointZ 1 0 0; pointZ 2 0 0]
                  ltac:(cbn; lia) line3_none_left)).
  vm_compute. reflexivity.
Defined.

(** ** The hull buffer of a session *)

Section HullBuffer.

Variable tilesOf : NavMesh -> N -> list dtTileRef.
Variable rcOffsetPoly : list vec3 -> F32.float -> nat -> Z * list vec3.
Variable distSqr : vec3 -> vec3 -> F32.float.

Lemma reachable_hull_distinct (w : World) :
  reachable tilesOf rcOffsetPoly distSqr w ->
  NoDup (m_hull (w_state w))
  /\ length (m_hull (w_state w)) <= length (m_pts (w_state w))
  /\ (2 <= length (m_pts (w_state w)) -> 2 <= length (m_hull (w_state w))).
Proof.
  intros Hr. apply reachable_inv in Hr. destruct Hr as [_ Hn Hh].
  destruct (Nat.lt_ge_cases (length (m_pts (w_state w))) 2) as [Hl|Hl].
  - rewrite (Hn Hl). split; [constructor|]. cbn. split; lia.
  - destruct (Hh Hl) as [fuel Hf].
    assert (Hne : m_pts (w_state w) <> [])
      by (intros E; rewrite E in Hl; cbn in Hl; lia).
    split; [apply (convexhull_NoDup fuel _ _ Hf)|].
    split; [apply (convexhull_length fuel _ _ Hne Hf)|].
    intros _. apply (convexhull_two_entries fuel _ _ Hl Hf).
Qed.

(** X4: in every state the tool can reach, the hull buffer is empty while
    fewer than 2 points are picked and is otherwise what [convexhull]
    returns on the picked points; it holds only indices of picked points,
    none of them twice, so [m_pts[m_hull[i]]] is always a picked point and
    the hull never has more entries than there are points. *)
Theorem session_hull_buffer (w : World) :
  reachable tilesOf rcOffsetPoly distSqr w ->
  (length (m_pts (w_state w)) < 2 -> m_hull (w_state w) = [])
  /\ (2 <= length (m_pts (w_state w)) ->
      (exists fuel,
         convexhull fuel (m_pts (w_state w)) = Some (m_hull (w_state w)))
      /\ 2 <= length (m_hull (w_state w)))
  /\ Forall (fun h => h < length (m_pts (w_state w))) (m_hull (w_state w))
  /\ NoDup (m_hull (w_state w))
  /\ length (m_hull (w_state w)) <= length (m_pts (w_state w)).
Proof.
  intros Hr.
  pose proof (reachable_hull_distinct w Hr) as (Hnd & Hlen & Htwo).
  pose proof (reachable_hull_indices _ _ _ w Hr) as Hidx.
  apply reachable_inv in Hr. destruct Hr as [_ Hn Hh].
  split; [exact Hn|]. split; [|auto].
  intros Hl. split; [apply Hh; exact Hl|apply Htwo; exact Hl].
Qed.

End HullBuffer.

Lemma session_hull_buffer_witness :
  (length (m_pts (w_state twoPicked)) < 2 -> m_hull (w_state twoPicked) = [])
  /\ (2 <= length (m_pts (w_state twoPicked)) ->
      (exists fuel,
         convexhull fuel (m_pts (w_state twoPicked))
         = Some (m_hull (w_state twoPicked)))
      /\ 2 <= length (m_hull (w_state twoPicked)))
  /\ Forall (fun h => h < length (m_pts (w_state twoPicked)))
       (m_hull (w_state twoPicked))
  /\ NoDup (m_hull (w_state twoPicked))
  /\ length (m_hull (w_state twoPicked))
     <= length (m_pts (w_state twoPicked)).
Proof.
  apply (session_hull_buffer noTiles offsetFails distSqr3 twoPicked).
  exact twoPicked_reachable.
Defined.

(** ** The point-in-polygon test *)

Lemma at_In (vs : list vec3) (i : nat) : i < length vs -> In (at_ vs i) vs.
Proof. intros H. apply nth_In. exact H. Qed.

Lemma prevIndex_lt (n i : nat) : i < n -> prevIndex n i < n.
Proof. destruct i; cbn; lia. Qed.

(** An edge whose two ends are on the same side of the ray is not
    crossed. *)
Lemma crosses_same_side (vi vj p : vec3) :
  F32.gt (vz vi) (vz p) = F32.gt (vz vj) (vz p) -> crosses vi vj p = false.
Proof.
  intros E. unfold crosses. rewrite E, eqb_reflx. reflexivity.
Qed.

Lemma filter_none (f : nat -> bool) (l : list nat) :
  (forall i, In i l -> f i = false) -> filter f l = [].
Proof.
  induction l as [|i l IH]; intros H; cbn [filter]; [reflexivity|].
  rewrite (H i) by (left; reflexivity).
  apply IH. intros j Hj. apply H. right. exact Hj.
Qed.

Lemma pointInPoly_one_side (vs : list vec3) (p : vec3) (b : bool) :
  (forall v, In v vs -> F32.gt (vz v) (vz p) = b) ->
  pointInPoly vs p = false.
Proof.
  intros H. rewrite pointInPoly_parity. unfold crossingNumber.
  rewrite filter_none; [reflexivity|].
  intros i Hi. apply in_seq in Hi. unfold edgeCrossed.
  apply crosses_same_side.
  rewrite (H (at_ vs i)) by (apply at_In; lia).
  rewrite (H (at_ vs (prevIndex (length vs) i)))
    by (apply at_In, prevIndex_lt; lia).
  reflexivity.
Qed.

Lemma pointInPoly_straddled (vs : list vec3) (p : vec3) :
  pointInPoly vs p = true ->
  (exists u, In u vs /\ F32.gt (vz u) (vz p) = true)
  /\ (exists v, In v vs /\ F32.gt (vz v) (vz p) = false).
Proof.
  intros H. split.
  - destruct (existsb (fun u => F32.gt (vz u) (vz p)) vs) eqn:E.
    + apply existsb_exists in E. exact E.
    + rewrite (pointInPoly_one_side vs p false) in H; [discriminate H|].
      intros v Hv. destruct (F32.gt (vz v) (vz p)) eqn:Ev; [|reflexivity].
      rewrite <- E. symmetry. apply existsb_exists. exists v. auto.
  - destruct (existsb (fun v => negb (F32.gt (vz v) (vz p))) vs) eqn:E.
    + apply existsb_exists in E. destruct E as (v & Hv & Ev).
      exists v. split; [exact Hv|]. apply negb_true_iff. exact Ev.
    + rewrite (pointInPoly_one_side vs p true) in H; [discriminate H|].
      intros v Hv. destruct (F32.gt (vz v) (vz p)) eqn:Ev; [reflexivity|].
      rewrite <- E. apply existsb_exists. exists v.
      rewrite Ev. auto.
Qed.

(** X5: [pointInPoly] answers "inside" only when the polygon has a vertex
    with [z > p.z] and a vertex without: a point whose [z] is beyond all
    vertices on one side is outside, a polygon of fewer than 2 vertices
    contains no point, and no polygon contains a point whose [z] is NaN. *)
Theorem pointInPoly_needs_both_sides (vs : list vec3) (p : vec3) :
  pointInPoly vs p = true ->
  (exists u v,
     In u vs /\ In v vs
     /\ F32.gt (vz u) (vz p) = true /\ F32.gt (vz v) (vz p) = false)
  /\ 2 <= length vs
  /\ F32.not_nan (vz p).
Proof.
  intros H. apply pointInPoly_straddled in H.
  destruct H as ((u & Hu & Eu) & (v & Hv & Ev)).
  split; [exists u, v; auto|]. split.
  - destruct vs as [|a [|b vs]]; [destruct Hu| |cbn; lia].
    destruct Hu as [<-|[]]. destruct Hv as [<-|[]]. congruence.
  - intros E. rewrite E in Eu. unfold F32.gt, SFltb in Eu. cbn in Eu.
    discriminate Eu.
Qed.

Lemma pointInPoly_needs_both_sides_witness :
  (exists u v,
     In u squarePoints /\ In v squarePoints
     /\ F32.gt (vz u) (vz (pointZ 5 2 5)) = true
     /\ F32.gt (vz v) (vz (pointZ 5 2 5)) = false)
  /\ 2 <= length squarePoints
  /\ F32.not_nan (vz (pointZ 5 2 5)).
Proof.
  apply (pointInPoly_needs_both_sides squarePoints (pointZ 5 2 5)).
  vm_compute. reflexivity.
Defined.

Lemma sameXZ_at (vs vs' : list vec3) :
  Forall2 sameXZ vs vs' -> forall i, sameXZ (at_ vs i) (at_ vs' i).
Proof.
  induction 1 as [|a b vs vs' Hab _ IH]; intros [|i].
  - split; reflexivity.
  - split; reflexivity.
  - exact Hab.
  - apply (IH i).
Qed.

Lemma crosses_sameXZ (vi vj p vi' vj' p' : vec3) :
  sameXZ vi vi' -> sameXZ vj vj' -> sameXZ p p' ->
  crosses vi vj p = crosses vi' vj' p'.
Proof.
  intros [Hix Hiz] [Hjx Hjz] [Hpx Hpz]. unfold crosses.
  rewrite Hix, Hiz, Hjx, Hjz, Hpx, Hpz. reflexivity.
Qed.

(** X6: [pointInPoly] is a test on the horizontal projection: it gives the
    same answer for every query point and polygon with the same [x] and [z]
    coordinates, whatever their heights are. *)
Theorem pointInPoly_ignores_heights (vs vs' : list vec3) (p p' : vec3) :
  Forall2 sameXZ vs vs' -> sameXZ p p' ->
  pointInPoly vs p = pointInPoly vs' p'.
Proof.
  intros Hvs Hp. rewrite !pointInPoly_parity. unfold crossingNumber.
  rewrite <- (Forall2_length Hvs).
  f_equal. f_equal. apply filter_ext. intros i. unfold edgeCrossed.
  rewrite <- (Forall2_length Hvs).
  apply crosses_sameXZ; [apply sameXZ_at| apply sameXZ_at|]; assumption.
Qed.

Lemma pointInPoly_ignores_heights_witness :
  pointInPoly [pointZ 0 0 0; pointZ 10 0 0; pointZ 10 0 10] (pointZ 5 0 2)
  = pointInPoly [pointZ 0 7 0; pointZ 10 3 0; pointZ 10 (-4) 10]
      (pointZ 5 99 2).
Proof.
  apply pointInPoly_ignores_heights.
  - repeat constructor.
  - split; reflexivity.
Defined.

(** The edges of a polygon whose first vertex is moved to the end are the
    edges of the polygon, one place further. *)
Lemma edgeCrossed_rotate (a : vec3) (rest : list vec3) (p : vec3) (i : nat) :
  i <= length rest ->
  edgeCrossed (rest ++ [a]) p i =
  edgeCrossed (a :: rest) p (if i =? length rest then 0 else S i).
Proof.
  intros Hi. unfold edgeCrossed, at_.
  rewrite length_app. cbn [length].
  replace (length rest + 1) with (S (length rest)) by lia.
  destruct (Nat.eqb_spec i (length rest)) as [E|E].
  - subst i. rewrite nth_middle. cbn [nth prevIndex].
    destruct rest as [|b rest]; [reflexivity|].
    cbn [length prevIndex Nat.sub].
    rewrite app_nth1 by (cbn; lia).
    replace (length rest - 0) with (length rest) by lia. reflexivity.
  - rewrite app_nth1 by lia. cbn [nth].
    destruct i as [|i]; cbn [prevIndex].
    + cbn [Nat.sub]. replace (length rest - 0) with (length rest) by lia.
      rewrite nth_middle. reflexivity.
    + rewrite app_nth1 by lia. reflexivity.
Qed.

Lemma crossingNumber_rotate (a : vec3) (rest : list vec3) (p : vec3) :
  crossingNumber (rest ++ [a]) p = crossingNumber (a :: rest) p.
Proof.
  unfold crossingNumber. rewrite length_app. cbn [length].
  replace (length rest + 1) with (S (length rest)) by lia.
  assert (L : seq 0 (S (length rest)) = seq 0 (length rest) ++ [length rest])
    by (rewrite seq_S; reflexivity).
  assert (R : seq 0 (S (length rest)) = 0 :: map S (seq 0 (length rest)))
    by (cbn [seq]; rewrite seq_shift; reflexivity).
  rewrite L at 1. rewrite R.
  rewrite filter_app, length_app. cbn [filter].
  rewrite (edgeCrossed_rotate a rest p (length rest)) by lia.
  rewrite Nat.eqb_refl.
  rewrite (filter_ext_in (edgeCrossed (rest ++ [a]) p)
             (fun i => edgeCrossed (a :: rest) p (S i))).
  - rewrite filter_map_swap.
    destruct (edgeCrossed (a :: rest) p 0); cbn [length];
      rewrite length_map; lia.
  - intros i Hi. apply in_seq in Hi. rewrite edgeCrossed_rotate by lia.
    replace (i =? length rest) with false
      by (symmetry; apply Nat.eqb_neq; lia).
    reflexivity.
Qed.

(** X7: the answer of [pointInPoly] does not depend on the vertex the
    polygon starts with: listing the same cycle of vertices from another
    vertex on gives the same answer. *)
Theorem pointInPoly_rotation (front back : list vec3) (p : vec3) :
  pointInPoly (back ++ front) p = pointInPoly (front ++ back) p.
Proof.
  revert back. induction front as [|a front IH]; intros back.
  - rewrite app_nil_r. reflexivity.
  - replace (back ++ a :: front) with ((back ++ [a]) ++ front)
      by (rewrite <- app_assoc; reflexivity).
    rewrite IH, app_assoc, !pointInPoly_parity.
    rewrite crossingNumber_rotate. reflexivity.
Qed.

(** X8: a click hits a volume only if the volume's height range is in
    order ([hmin <= hmax]), the click's height is not NaN and the polygon has
    at least 2 vertices; a volume whose [hmin] is above its [hmax] can not be
    deleted by a click. *)
Theorem hit_needs_a_proper_volume (p : vec3) (vol : ConvexVolume) :
  hit p vol = true ->
  F32.le (hmin vol) (hmax vol) = true
  /\ F32.not_nan (vy p)
  /\ 2 <= length (verts vol).
Proof.
  unfold hit. rewrite !andb_true_iff. unfold F32.ge.
  intros [[Hin Hlo] Hhi]. split; [|split].
  - apply (F32Facts.le_trans _ (vy p)); assumption.
  - apply (F32Facts.le_not_nan_l _ _ Hhi).
  - apply pointInPoly_straddled in Hin.
    destruct Hin as ((u & Hu & Eu) & (v & Hv & Ev)).
    destruct (verts vol) as [|a [|b vs]]; [destruct Hu| |cbn; lia].
    destruct Hu as [<-|[]]. destruct Hv as [<-|[]]. congruence.
Qed.

Lemma hit_needs_a_proper_volume_witness :
  F32.le (hmin squareVolume) (hmax squareVolume) = true
  /\ F32.not_nan (vy (pointZ 5 2 5))
  /\ 2 <= length (verts squareVolume).
Proof.
  apply (hit_needs_a_proper_volume (pointZ 5 2 5) squareVolume).
  vm_compute. reflexivity.
Defined.

(** ** What every operation of the tool keeps *)

Lemma spaced_app (distSqr : vec3 -> vec3 -> F32.float)
    (pts : list vec3) (p : vec3) :
  spaced distSqr pts ->
  pts = [] \/ F32.lt (distSqr p (last pts vec3_zero)) closeTolerance = false ->
  spaced distSqr (pts ++ [p]).
Proof.
  induction pts as [|a pts IH]; intros Hs Hp; [exact I|].
  destruct pts as [|b pts].
  - destruct Hp as [Hp|Hp]; [discriminate Hp|]. cbn in *. auto.
  - destruct Hs as [Hab Hs]. split; [exact Hab|].
    apply IH; [exact Hs|]. right.
    destruct Hp as [Hp|Hp]; [discriminate Hp|exact Hp].
Qed.

Lemma rebuildTiles_cases (tiles : list dtTileRef)
    (log : list (list dtTileRef)) :
  rebuildTiles tiles log = log
  \/ (tiles <> [] /\ rebuildTiles tiles log = log ++ [tiles]).
Proof.
  destruct tiles; [left; reflexivity|right].
  split; [discriminate|reflexivity].
Qed.

Lemma find_updateFirstById (i : N) (e vol : ConvexVolume)
    (vols : list ConvexVolume) :
  find (fun v => N.eqb (id v) i) vols = Some vol ->
  find (fun v => N.eqb (id v) i) (updateFirstById i e vols)
  = Some (mkVolume i (name e) (verts e) (areaType e) (hmin e) (hmax e)).
Proof.
  induction vols as [|v vols IH]; cbn [find updateFirstById]; [discriminate|].
  destruct (N.eqb_spec (id v) i) as [E|E].
  - intros _. cbn [find id]. rewrite E, N.eqb_refl. reflexivity.
  - intros H. cbn [find].
    replace (id v =? i)%N with false by (symmetry; apply N.eqb_neq; exact E).
    apply IH. exact H.
Qed.

Lemma updateFirstById_ids (i : N) (e : ConvexVolume)
    (vols : list ConvexVolume) :
  map id (updateFirstById i e vols) = map id vols.
Proof.
  induction vols as [|v vols IH]; cbn [updateFirstById map]; [reflexivity|].
  destruct (id v =? i)%N; cbn [map id]; [reflexivity|].
  rewrite IH. reflexivity.
Qed.

Section Operations.

Variable tilesOf : NavMesh -> N -> list dtTileRef.
Variable rcOffsetPoly : list vec3 -> F32.float -> nat -> Z * list vec3.
Variable distSqr : vec3 -> vec3 -> F32.float.

(** What a click does to the points: nothing, all gone, or one more that
    is not close to the last one. *)
Lemma handleVolumeClick_points (fuel : nat) (p : vec3) (shift alt : bool)
    (s s' : ConvexVolumeToolState) (nm nm' : NavMesh)
    (tiles : list dtTileRef) :
  handleVolumeClick tilesOf rcOffsetPoly distSqr fuel p shift alt s nm
  = Some (s', nm', tiles) ->
  m_pts s' = m_pts s \/ m_pts s' = []
  \/ (m_pts s' = m_pts s ++ [p]
      /\ (m_pts s = []
          \/ F32.lt (distSqr p (last (m_pts s) vec3_zero)) closeTolerance
             = false)).
Proof.
  intros H.
  destruct (handleVolumeClick_state tilesOf rcOffsetPoly distSqr fuel p shift
              alt s s' nm nm' tiles H)
    as [->|[->|[[Hp ->]|(hull & Hp & -> & Hh)]]]; auto.
  - right. right. cbn. rewrite Hp. auto.
  - right. right. split; [reflexivity|]. right.
    unfold handleVolumeClick in H. destruct shift.
    + destruct (findHit p (m_volumes nm) 0) as [i|];
        [destruct (GetConvexVolume nm i)|];
        injection H as Hs _ _; apply (f_equal m_pts) in Hs; cbn in Hs;
        exfalso; apply Hp;
        apply (f_equal (@length _)) in Hs; rewrite length_app in Hs;
        cbn in Hs; lia.
    + replace (0 <? length (m_pts s)) with true in H
        by (symmetry; apply Nat.ltb_lt; destruct (m_pts s);
            [congruence|cbn; lia]).
      cbn [andb] in H.
      destruct (alt || F32.lt (distSqr p (last (m_pts s) vec3_zero))
                         closeTolerance) eqn:E.
      * pose proof (CreateShape_resets tilesOf rcOffsetPoly s nm) as Hr.
        injection H as H. rewrite H in Hr. cbn in Hr.
        apply (f_equal m_pts) in Hr. cbn in Hr.
        destruct (m_pts s); [congruence|discriminate Hr].
      * apply orb_false_elim in E. exact (proj2 E).
Qed.

(** X9: in every state the tool can reach, no picked point lies within the
    closing tolerance of the point picked before it
    ([distSqr < rcSqr(0.2f)] is false for each pair of consecutive points):
    such a click closes the shape instead. *)
Theorem picked_points_are_spaced (w : World) :
  reachable tilesOf rcOffsetPoly distSqr w ->
  spaced distSqr (m_pts (w_state w)).
Proof.
  induction 1 as [w (Hp & _)|w op w' _ IH Hstep].
  - rewrite Hp. exact I.
  - destruct Hstep as [w ev|w p shift alt fuel w' Hc|w].
    + destruct (handleMenu_buffers tilesOf rcOffsetPoly ev w)
        as [[-> _]|[-> _]]; [exact IH|exact I].
    + unfold handleClick in Hc.
      destruct (negb _); [injection Hc as <-; exact IH|].
      destruct (handleVolumeClick _ _ _ _ _ _ _ _ _) as [[[s' nm'] tiles]|]
        eqn:E; [|discriminate Hc].
      injection Hc as <-. cbn [w_state].
      apply handleVolumeClick_points in E.
      destruct E as [->|[->|[-> Hfar]]]; [exact IH|exact I|].
      apply spaced_app; assumption.
    + exact IH.
Qed.

Lemma handleMenu_rebuilt (ev : MenuEvent) (w : World) :
  let w' := handleMenu tilesOf rcOffsetPoly ev w in
  w_rebuilt w' = w_rebuilt w
  \/ exists tiles, tiles <> [] /\ w_rebuilt w' = w_rebuilt w ++ [tiles].
Proof.
  assert (Hcases : forall tiles log log',
            log' = rebuildTiles tiles log ->
            log' = log
            \/ exists tiles, tiles <> [] /\ log' = log ++ [tiles]).
  { intros tiles log log' ->.
    destruct (rebuildTiles_cases tiles log) as [E|[Hne E]]; rewrite E;
      [left; reflexivity|right; exists tiles; auto]. }
  destruct w as [s editing nm log].
  destruct ev; unfold handleMenu;
    cbn [w_state w_editing w_navMesh w_rebuilt].
  - destruct (GetConvexVolume nm row) as [volume|]; [|auto].
    destruct (negb (m_currentVolumeId s =? id volume)%N); cbn; auto.
  - cbn; auto.
  - destruct (negb editing && negb (m_currentVolumeId s =? 0)%N);
      [|cbn; auto].
    cbn [w_rebuilt]. eapply Hcases. reflexivity.
  - destruct editing; cbn; auto.
  - destruct editing; cbn; auto.
  - destruct editing; cbn; auto.
  - destruct editing; cbn; auto.
  - destruct editing; cbn; auto.
  - destruct (editing && (2 <? length (m_hull s))); [|cbn; auto].
    destruct (CreateShape tilesOf rcOffsetPoly s nm) as [[s' nm'] tiles].
    cbn [w_rebuilt]. eapply Hcases. reflexivity.
  - destruct editing; cbn; auto.
  - destruct (negb editing && negb (m_currentVolumeId s =? 0)%N); cbn; auto.
  - destruct (negb editing && negb (m_currentVolumeId s =? 0)%N); cbn; auto.
  - destruct (negb editing && negb (m_currentVolumeId s =? 0)%N); cbn; auto.
  - destruct (negb editing && negb (m_currentVolumeId s =? 0)%N); cbn; auto.
  - destruct (negb editing && negb (m_currentVolumeId s =? 0)%N
              && m_modified s); [|cbn; auto].
    destruct (GetConvexVolumeById nm (m_currentVolumeId s)); [|cbn; auto].
    cbn [w_rebuilt]. eapply Hcases. reflexivity.
Qed.

(** X10: an operation of the tool (a menu event, a click, a tool reset)
    sends at most one request to [RebuildTiles], never one for an empty list
    of tiles, and leaves the earlier requests as they were. *)
Theorem one_rebuild_request_at_most (w w' : World) (op : Op) :
  step tilesOf rcOffsetPoly distSqr w op w' ->
  w_rebuilt w' = w_rebuilt w
  \/ exists tiles, tiles <> [] /\ w_rebuilt w' = w_rebuilt w ++ [tiles].
Proof.
  intros Hstep. destruct Hstep as [w ev|w p shift alt fuel w' Hc|w].
  - apply handleMenu_rebuilt.
  - unfold handleClick in Hc.
    destruct (negb _); [injection Hc as <-; left; reflexivity|].
    destruct (handleVolumeClick _ _ _ _ _ _ _ _ _) as [[[s' nm'] tiles]|];
      [|discriminate Hc].
    injection Hc as <-. cbn [w_rebuilt].
    destruct (rebuildTiles_cases tiles (w_rebuilt w)) as [E|[Hne E]];
      rewrite E; [left; reflexivity|right; exists tiles; auto].
  - left. reflexivity.
Qed.

(** X11: in a state the tool can reach, a commit without offset
    ([polyOffset] not above the epsilon) on a hull of more than 2 indices
    adds one volume whose vertices are the hull points: at least 3 of them,
    each a picked point, taken at pairwise different indices. *)
Theorem committed_vertices_are_picked (w : World) :
  reachable tilesOf rcOffsetPoly distSqr w ->
  2 < length (m_hull (w_state w)) ->
  F32.gt (m_polyOffset (w_state w)) F32.c0_01 = false ->
  exists v,
    fst (CreateShape tilesOf rcOffsetPoly (w_state w) (w_navMesh w))
    = (reset (w_state w), mkNavMesh (m_volumes (w_navMesh w) ++ [v]))
    /\ verts v = hullVerts (w_state w)
    /\ 3 <= length (verts v)
    /\ Forall (fun q => In q (m_pts (w_state w))) (verts v)
    /\ NoDup (m_hull (w_state w)).
Proof.
  intros Hr Hh Ho.
  pose proof (reachable_hull_distinct tilesOf rcOffsetPoly distSqr w Hr)
    as (Hnd & _ & _).
  pose proof (reachable_hull_indices _ _ _ w Hr) as Hidx.
  unfold CreateShape.
  replace (2 <? length (m_hull (w_state w))) with true
    by (symmetry; apply Nat.ltb_lt; exact Hh).
  rewrite Ho. unfold AddConvexVolume. cbn beta iota zeta.
  eexists. split; [reflexivity|]. cbn [verts].
  split; [reflexivity|]. split; [|split; [|exact Hnd]].
  - unfold hullVerts. rewrite length_map. lia.
  - unfold hullVerts. apply Forall_map.
    eapply Forall_impl; [|exact Hidx]. cbn beta.
    intros h Hlt. apply at_In. exact Hlt.
Qed.

Lemma handleMenu_edit_inv (ev : MenuEvent) (w : World) :
  edit_inv w -> edit_inv (handleMenu tilesOf rcOffsetPoly ev w).
Proof.
  unfold edit_inv. intros Hinv. destruct w as [s editing nm log].
  cbn [w_state] in Hinv.
  destruct ev; unfold handleMenu;
    cbn [w_state w_editing w_navMesh w_rebuilt].
  - destruct (GetConvexVolume nm row) as [volume|]; [|exact Hinv].
    destruct (negb (m_currentVolumeId s =? id volume)%N); [|exact Hinv].
    cbn. reflexivity.
  - cbn. congruence.
  - destruct (negb editing && negb (m_currentVolumeId s =? 0)%N);
      [|exact Hinv].
    cbn. congruence.
  - destruct editing; [|exact Hinv]. exact Hinv.
  - destruct editing; [|exact Hinv]. exact Hinv.
  - destruct editing; [|exact Hinv]. exact Hinv.
  - destruct editing; [|exact Hinv]. exact Hinv.
  - destruct editing; [|exact Hinv]. exact Hinv.
  - destruct (editing && (2 <? length (m_hull s))); [|exact Hinv].
    pose proof (CreateShape_resets tilesOf rcOffsetPoly s nm) as Hr.
    destruct (CreateShape tilesOf rcOffsetPoly s nm) as [[s' nm'] tiles].
    cbn in Hr. subst s'. cbn. congruence.
  - destruct editing; [|exact Hinv]. cbn. congruence.
  - destruct (negb editing && negb (m_currentVolumeId s =? 0)%N);
      exact Hinv.
  - destruct (negb editing && negb (m_currentVolumeId s =? 0)%N);
      exact Hinv.
  - destruct (negb editing && negb (m_currentVolumeId s =? 0)%N);
      exact Hinv.
  - destruct (negb editing && negb (m_currentVolumeId s =? 0)%N);
      exact Hinv.
  - destruct (negb editing && negb (m_currentVolumeId s =? 0)%N
              && m_modified s); [|exact Hinv].
    destruct (GetConvexVolumeById nm (m_currentVolumeId s)); exact Hinv.
Qed.

Lemma reachable_edit_inv (w : World) :
  reachable tilesOf rcOffsetPoly distSqr w -> edit_inv w.
Proof.
  induction 1 as [w (_ & _ & Hid)|w op w' _ IH Hstep].
  - intros H. congruence.
  - destruct Hstep as [w ev|w p shift alt fuel w' Hc|w].
    + apply handleMenu_edit_inv. exact IH.
    + unfold handleClick in Hc.
      destruct (negb _); [injection Hc as <-; exact IH|].
      destruct (handleVolumeClick _ _ _ _ _ _ _ _ _) as [[[s' nm'] tiles]|]
        eqn:E; [|discriminate Hc].
      injection Hc as <-.
      apply handleVolumeClick_state in E.
      destruct E as [->|[->|[[_ ->]|(hull & _ & -> & _)]]];
        unfold edit_inv in *; cbn; try exact IH; congruence.
    + exact IH.
Qed.

(** X12: in a state the tool can reach, with a volume selected and edits
    pending, "Save Changes" on a volume that the registry still holds leaves
    under the selected id exactly the edit buffer, keeps the ids of the
    registry and their order, and changes nothing in the session: the
    selection, the edit buffer and the dirty flag stay as they are. *)
Theorem save_changes_stores_edit_buffer (w : World) (vol : ConvexVolume) :
  reachable tilesOf rcOffsetPoly distSqr w ->
  m_currentVolumeId (w_state w) <> 0%N ->
  m_modified (w_state w) = true ->
  GetConvexVolumeById (w_navMesh w) (m_currentVolumeId (w_state w))
  = Some vol ->
  let w' := handleMenu tilesOf rcOffsetPoly ClickSaveChanges w in
  GetConvexVolumeById (w_navMesh w') (m_currentVolumeId (w_state w))
  = Some (m_editVolume (w_state w))
  /\ map id (m_volumes (w_navMesh w')) = map id (m_volumes (w_navMesh w))
  /\ w_state w' = w_state w.
Proof.
  intros Hr Hid Hm Hfind.
  pose proof (reachable_edit_inv w Hr Hid) as He.
  apply reachable_inv in Hr. destruct (inv_selected _ Hr Hid) as (Hed & _).
  cbn zeta. unfold handleMenu. rewrite Hed, Hm, Hfind.
  replace (m_currentVolumeId (w_state w) =? 0)%N with false
    by (symmetry; apply N.eqb_neq; exact Hid).
  cbn [negb andb w_navMesh w_state m_volumes].
  split; [|split; [apply updateFirstById_ids|reflexivity]].
  unfold GetConvexVolumeById in *. cbn [m_volumes].
  rewrite (find_updateFirstById _ _ vol) by exact Hfind.
  rewrite <- He. destruct (m_editVolume (w_state w)). reflexivity.
Qed.

End Operations.

Lemma picked_points_are_spaced_witness :
  spaced distSqr3 (m_pts (w_state twoPicked)).
Proof.
  apply (picked_points_are_spaced noTiles offsetFails distSqr3 twoPicked).
  exact twoPicked_reachable.
Defined.

Lemma one_rebuild_request_at_most_witness :
  w_rebuilt (handleMenu tileOfVolume offsetFails ClickDelete selectedWorld)
  = w_rebuilt selectedWorld
  \/ exists tiles,
      tiles <> []
      /\ w_rebuilt
           (handleMenu tileOfVolume offsetFails ClickDelete selectedWorld)
         = w_rebuilt selectedWorld ++ [tiles].
Proof.
  apply (one_rebuild_request_at_most tileOfVolume offsetFails distSqr3
           selectedWorld _ (Menu ClickDelete)).
  apply step_menu.
Defined.

(** The session with the four corners of the square picked. *)
Lemma squarePicked_reachable :
  reachable tileOfVolume offsetFails distSqr3
    (mkWorld squarePicked true (mkNavMesh []) []).
Proof.
  eapply reach_step with (op := Click (pointZ 0 0 10) false false).
  - eapply reach_step with (op := Click (pointZ 10 0 10) false false).
    + eapply reach_step with (op := Click (pointZ 10 0 0) false false).
      * eapply reach_step with (op := Click (pointZ 0 0 0) false false).
        -- apply (reach_initial _ _ _ freshWorld). repeat split.
        -- apply step_click with (fuel := 1). vm_compute. reflexivity.
      * apply step_click with (fuel := 2). vm_compute. reflexivity.
    + apply step_click with (fuel := 3). vm_compute. reflexivity.
  - apply step_click with (fuel := 4). vm_compute. reflexivity.
Qed.

Lemma committed_vertices_are_picked_witness :
  exists v,
    fst (CreateShape tileOfVolume offsetFails squarePicked (mkNavMesh []))
    = (reset squarePicked, mkNavMesh ([] ++ [v]))
    /\ verts v = hullVerts squarePicked
    /\ 3 <= length (verts v)
    /\ Forall (fun q => In q (m_pts squarePicked)) (verts v)
    /\ NoDup (m_hull squarePicked).
Proof.
  apply (committed_vertices_are_picked tileOfVolume offsetFails distSqr3
           (mkWorld squarePicked true (mkNavMesh []) [])).
  - exact squarePicked_reachable.
  - cbn. lia.
  - vm_compute. reflexivity.
Defined.

Lemma renamedWorld_reachable :
  reachable tileOfVolume offsetFails distSqr3 renamedWorld.
Proof.
  apply reach_step with (w := selectedWorld)
                        (op := Menu (InputVolumeName ["A"%char])).
  - exact selectedWorld_reachable.
  - apply (step_menu tileOfVolume offsetFails distSqr3 selectedWorld
             (InputVolumeName ["A"%char])).
Qed.

Lemma save_changes_stores_edit_buffer_witness :
  GetConvexVolumeById
    (w_navMesh (handleMenu tileOfVolume offsetFails ClickSaveChanges
                  renamedWorld)) 1
  = Some (m_editVolume (w_state renamedWorld))
  /\ map id
       (m_volumes
          (w_navMesh (handleMenu tileOfVolume offsetFails ClickSaveChanges
                        renamedWorld)))
     = map id (m_volumes (w_navMesh renamedWorld))
  /\ w_state (handleMenu tileOfVolume offsetFails ClickSaveChanges
                renamedWorld)
     = w_state renamedWorld.
Proof.
  apply (save_changes_stores_edit_buffer tileOfVolume offsetFails distSqr3
           renamedWorld squareVolume).
  - exact renamedWorld_reachable.
  - discriminate.
  - reflexivity.
  - reflexivity.
Defined.

(** ** The area type combo *)

Lemma selectedArea_prefix (ids : list N) (areaType : N) (n : nat) :
  let sel :=
    fold_left (fun selected i => if (nth i ids 0 =? areaType)%N then i
                                 else selected) (seq 0 n) 0 in
  ((exists j, j < n /\ nth j ids 0%N = areaType) ->
   sel < n /\ nth sel ids 0%N = areaType
   /\ forall j, sel < j < n -> nth j ids 0%N <> areaType)
  /\ ((forall j, j < n -> nth j ids 0%N <> areaType) -> sel = 0).
Proof.
  induction n as [|n [IHsome IHnone]]; cbn zeta.
  - split; [intros (j & Hj & _); lia|reflexivity].
  - rewrite seq_S, fold_left_app. cbn [Nat.add fold_left].
    destruct (N.eqb_spec (nth n ids 0%N) areaType) as [E|E].
    + split; [|intros H; exfalso; apply (H n); [lia|exact E]].
      intros _. split; [lia|]. split; [exact E|]. intros j Hj. lia.
    + split.
      * intros (j & Hj & Ej).
        assert (Hjn : j < n).
        { destruct (Nat.eq_dec j n) as [->|]; [congruence|lia]. }
        destruct (IHsome (ex_intro _ j (conj Hjn Ej))) as (Hlt & Hsel & Hlast).
        split; [lia|]. split; [exact Hsel|].
        intros k Hk. destruct (Nat.eq_dec k n) as [->|]; [exact E|].
        apply Hlast. lia.
      * intros H. apply IHnone. intros j Hj. apply H. lia.
Qed.

(** X13: the entry that [AreaTypeCombo] shows for an area type is the last
    entry of the list with that id, and entry 0 when no entry has it (so a
    volume with an unknown area type shows the first area).  Choosing
    entry [k] reports a change and sets the area type to the id of entry [k];
    with ids that are all different, the combo then shows entry [k]. *)
Theorem area_combo_selection (ids : list N) (areaType : N) :
  (In areaType ids ->
   selectedArea ids areaType < length ids
   /\ nth (selectedArea ids areaType) ids 0%N = areaType
   /\ forall j, selectedArea ids areaType < j < length ids ->
                nth j ids 0%N <> areaType)
  /\ (~ In areaType ids -> selectedArea ids areaType = 0)
  /\ AreaTypeCombo ids areaType None
     = (selectedArea ids areaType, false, areaType)
  /\ (forall k,
        k < length ids -> NoDup ids ->
        AreaTypeCombo ids areaType (Some k)
        = (selectedArea ids areaType, true, nth k ids 0%N)
        /\ selectedArea ids (nth k ids 0%N) = k).
Proof.
  split; [|split; [|split; [reflexivity|]]].
  - intros Hin. apply (In_nth _ _ 0%N) in Hin.
    destruct Hin as (j & Hj & Ej).
    apply (proj1 (selectedArea_prefix ids areaType (length ids))).
    exists j. auto.
  - intros Hnot.
    apply (proj2 (selectedArea_prefix ids areaType (length ids))).
    intros j Hj E. apply Hnot. rewrite <- E. apply nth_In. exact Hj.
  - intros k Hk Hnd. split; [reflexivity|].
    destruct (proj1 (selectedArea_prefix ids (nth k ids 0%N) (length ids)))
      as (Hlt & Hsel & _); [exists k; auto|].
    apply (proj1 (NoDup_nth ids 0%N) Hnd); assumption.
Qed.

Lemma area_combo_selection_witness :
  (selectedArea [7; 3; 9]%N 3 < 3
   /\ nth (selectedArea [7; 3; 9]%N 3) [7; 3; 9]%N 0%N = 3%N
   /\ forall j, selectedArea [7; 3; 9]%N 3 < j < 3 ->
                nth j [7; 3; 9]%N 0%N <> 3%N)
  /\ selectedArea [7; 3; 9]%N 4 = 0
  /\ selectedArea [7; 3; 9]%N (nth 2 [7; 3; 9]%N 0%N) = 2.
Proof.
  pose proof (area_combo_selection [7; 3; 9]%N 3) as (H1 & _ & _ & H4).
  pose proof (area_combo_selection [7; 3; 9]%N 4) as (_ & H2 & _).
  split; [|split].
  - apply H1. cbn. auto.
  - apply H2. cbn. intros [H|[H|[H|[]]]]; discriminate H.
  - apply (H4 2); [cbn; lia|].
    repeat constructor; cbn; intros H; decompose [or] H;
      try discriminate; assumption.
Defined.

(** ** What is drawn *)

Section Drawing.

Variable tilesOf : NavMesh -> N -> list dtTileRef.
Variable rcOffsetPoly : list vec3 -> F32.float -> nat -> Z * list vec3.
Variable distSqr : vec3 -> vec3 -> F32.float.

(** X14: the floor of the box that [handleRender] previews is taken over
    all picked points, the floor of the committed volume over the hull
    points only; in a state the tool can reach, with heights that are
    ordinary floats, the least height over the picked points is at most the
    least height over the hull points (a picked point inside the hull can lie
    lower than every hull point, and is then below the committed floor). *)
Theorem preview_floor_not_above_commit_floor (w : World) :
  reachable tilesOf rcOffsetPoly distSqr w ->
  Forall (fun q => F32.le (vy q) F32.FLT_MAX = true) (m_pts (w_state w)) ->
  m_currentVolumeId (w_state w) = 0%N ->
  renderExtent (w_state w)
  = (F32.sub (minHeight (m_pts (w_state w))) (m_boxDescent (w_state w)),
     F32.add
       (F32.sub (minHeight (m_pts (w_state w))) (m_boxDescent (w_state w)))
       (m_boxHeight (w_state w)))
  /\ F32.le (minHeight (m_pts (w_state w)))
       (minHeight (hullVerts (w_state w))) = true.
Proof.
  intros Hr Hys Hid. split.
  - unfold renderExtent. rewrite Hid. reflexivity.
  - pose proof (reachable_hull_indices _ _ _ w Hr) as Hidx.
    assert (Hnn : forall vs,
              Forall (fun q => F32.le (vy q) F32.FLT_MAX = true) vs ->
              Forall (fun q => F32.not_nan (vy q)) vs).
    { intros vs H. eapply Forall_impl; [|exact H]. cbn beta. intros q Hq.
      eapply F32Facts.le_not_nan_l. exact Hq. }
    assert (Hsub : forall q, In q (hullVerts (w_state w)) ->
                             In q (m_pts (w_state w))).
    { intros q Hq. unfold hullVerts in Hq. apply in_map_iff in Hq.
      destruct Hq as (h & <- & Hh). apply at_In.
      rewrite Forall_forall in Hidx. apply Hidx. exact Hh. }
    assert (Hys' : Forall (fun q => F32.le (vy q) F32.FLT_MAX = true)
                     (hullVerts (w_state w))).
    { rewrite Forall_forall in *. intros q Hq. apply Hys, Hsub, Hq. }
    destruct (minHeight_fold (m_pts (w_state w)) F32.FLT_MAX
                ltac:(discriminate) (Hnn _ Hys)) as (_ & Hle & Hall).
    destruct (minHeight_fold (hullVerts (w_state w)) F32.FLT_MAX
                ltac:(discriminate) (Hnn _ Hys')) as (Hin & _ & _).
    unfold minHeight.
    destruct Hin as [E|(q & Hq & E)]; rewrite E.
    + exact Hle.
    + apply Hall, Hsub, Hq.
Qed.

End Drawing.

Lemma preview_floor_not_above_commit_floor_witness :
  renderExtent squarePicked
  = (F32.sub (minHeight (m_pts squarePicked)) (m_boxDescent squarePicked),
     F32.add
       (F32.sub (minHeight (m_pts squarePicked)) (m_boxDescent squarePicked))
       (m_boxHeight squarePicked))
  /\ F32.le (minHeight (m_pts squarePicked))
       (minHeight (hullVerts squarePicked)) = true.
Proof.
  apply (preview_floor_not_above_commit_floor tileOfVolume offsetFails
           distSqr3 (mkWorld squarePicked true (mkNavMesh []) [])).
  - exact squarePicked_reachable.
  - repeat constructor.
  - reflexivity.
Defined.

Lemma pointCalls_length (vs : list vec3) : length (pointCalls vs) = length vs.
Proof. unfold pointCalls. rewrite length_map, length_seq. reflexivity. Qed.

Lemma edgeCalls_walls (vert : nat -> vec3) (n : nat) (minh maxh : F32.float) :
  forall l,
    length (flat_map
              (fun i => wallCalls (vert (prevIndex n i)) (vert i) minh maxh) l)
    = 6 * length l
    /\ Forall (fun c => exists x z col,
                   c = dd_vertex x minh z col \/ c = dd_vertex x maxh z col)
         (flat_map
            (fun i => wallCalls (vert (prevIndex n i)) (vert i) minh maxh) l).
Proof.
  induction l as [|i l [IHlen IHall]]; cbn [flat_map].
  - split; [reflexivity|constructor].
  - split.
    + rewrite length_app, IHlen. cbn [wallCalls length]. lia.
    + apply Forall_app. split; [|exact IHall].
      unfold wallCalls. repeat constructor; eauto.
Qed.

Lemma pointCalls_nth (vs : list vec3) (i : nat) :
  i < length vs ->
  nth i (pointCalls vs) dd_end
  = dd_vertex (vx (at_ vs i)) (F32.add (vy (at_ vs i)) F32.c0_1)
      (vz (at_ vs i))
      (if i =? length vs - 1 then duRGBA 240 32 16 255
       else duRGBA 255 255 255 255).
Proof.
  intros Hi. unfold pointCalls.
  set (f := fun i : nat =>
              dd_vertex (vx (at_ vs i)) (F32.add (vy (at_ vs i)) F32.c0_1)
                (vz (at_ vs i))
                (if i =? length vs - 1 then duRGBA 240 32 16 255
                 else duRGBA 255 255 255 255)).
  rewrite (nth_indep (map f (seq 0 (length vs))) dd_end (f 0))
    by (rewrite length_map, length_seq; exact Hi).
  rewrite map_nth, seq_nth by exact Hi. reflexivity.
Qed.

Lemma pointCalls_vertices (vs : list vec3) :
  Forall (fun c => exists x y z col, c = dd_vertex x y z col) (pointCalls vs).
Proof.
  unfold pointCalls. apply Forall_forall. intros c Hc.
  apply in_map_iff in Hc. destruct Hc as (i & <- & _). eauto.
Qed.

(** The six line vertices of edge [i] are the [i]-th group of six. *)
Lemma edgeCalls_group (vert : nat -> vec3) (n : nat) (minh maxh : F32.float) :
  forall l i,
    i < length l ->
    firstn 6
      (skipn (6 * i)
         (flat_map
            (fun i => wallCalls (vert (prevIndex n i)) (vert i) minh maxh) l))
    = wallCalls (vert (prevIndex n (nth i l 0))) (vert (nth i l 0)) minh maxh.
Proof.
  induction l as [|a l IH]; intros i Hi; [cbn in Hi; lia|].
  cbn [flat_map]. destruct i as [|i].
  - reflexivity.
  - replace (6 * S i) with (6 + 6 * i) by lia.
    unfold wallCalls at 1. cbn [app Nat.add skipn nth].
    apply IH. cbn in Hi. lia.
Qed.

Lemma edgeCalls_vertices (vert : nat -> vec3) (n : nat)
    (minh maxh : F32.float) :
  Forall (fun c => exists x y z col, c = dd_vertex x y z col)
    (edgeCalls vert n minh maxh).
Proof.
  destruct (edgeCalls_walls vert n minh maxh (seq 0 n)) as [_ H].
  unfold edgeCalls. eapply Forall_impl; [|exact H]. cbn beta.
  intros c (x & z & col & [->| ->]); eauto.
Qed.

(** What [handleRender] sends for a list of points and a polygon of [n]
    edges between two heights. *)
Lemma render_batches (vs : list vec3) (vert : nat -> vec3) (n : nat)
    (minh maxh : F32.float) :
  length (pointCalls vs) = length vs
  /\ (forall i, i < length vs ->
         nth i (pointCalls vs) dd_end
         = dd_vertex (vx (at_ vs i)) (F32.add (vy (at_ vs i)) F32.c0_1)
             (vz (at_ vs i))
             (if i =? length vs - 1 then duRGBA 240 32 16 255
              else duRGBA 255 255 255 255))
  /\ length (edgeCalls vert n minh maxh) = 6 * n
  /\ (forall i, i < n ->
         firstn 6 (skipn (6 * i) (edgeCalls vert n minh maxh))
         = wallCalls (vert (prevIndex n i)) (vert i) minh maxh)
  /\ Forall (fun c => exists x y z col, c = dd_vertex x y z col)
       (pointCalls vs ++ edgeCalls vert n minh maxh)
  /\ Forall (fun c => exists x z col,
                 c = dd_vertex x minh z col \/ c = dd_vertex x maxh z col)
       (edgeCalls vert n minh maxh).
Proof.
  destruct (edgeCalls_walls vert n minh maxh (seq 0 n)) as [Hlen Hall].
  rewrite length_seq in Hlen.
  split; [apply pointCalls_length|]. split; [apply pointCalls_nth|].
  split; [exact Hlen|]. split; [|split; [|exact Hall]].
  - intros i Hi. unfold edgeCalls.
    rewrite (edgeCalls_group vert n minh maxh (seq 0 n) i)
      by (rewrite length_seq; exact Hi).
    rewrite seq_nth by exact Hi. reflexivity.
  - apply Forall_app. split;
      [apply pointCalls_vertices|apply edgeCalls_vertices].
Qed.

(** X15: [handleRender] sends two batches to the debug drawer, each opened
    and closed once, with nothing but vertices between the opening and the
    closing call.  The point batch holds one vertex per drawn point, in
    order: the point lifted by [0.1f], white, the last one red.  The line
    batch holds six vertices per edge, in order: for edge [i] the six
    vertices of the loop body, between the vertex before [i] and vertex [i],
    every one of them at one of the two heights of the drawn extent.  With
    no edge the line batch is empty. *)
Theorem handleRender_batches (s : ConvexVolumeToolState) :
  exists points lines,
    handleRender s
    = [dd_begin DU_DRAW_POINTS (F32.of_Z 4)] ++ points ++ [dd_end]
      ++ [dd_begin DU_DRAW_LINES (F32.of_Z 2)] ++ lines ++ [dd_end]
    /\ length points = length (drawnPoints s)
    /\ (forall i, i < length (drawnPoints s) ->
           nth i points dd_end
           = dd_vertex (vx (at_ (drawnPoints s) i))
               (F32.add (vy (at_ (drawnPoints s) i)) F32.c0_1)
               (vz (at_ (drawnPoints s) i))
               (if i =? length (drawnPoints s) - 1
                then duRGBA 240 32 16 255
                else duRGBA 255 255 255 255))
    /\ length lines = 6 * drawnEdges s
    /\ (forall i, i < drawnEdges s ->
           firstn 6 (skipn (6 * i) lines)
           = wallCalls (drawnVertex s (prevIndex (drawnEdges s) i))
               (drawnVertex s i)
               (fst (renderExtent s)) (snd (renderExtent s)))
    /\ Forall (fun c => exists x y z col, c = dd_vertex x y z col)
         (points ++ lines)
    /\ Forall (fun c => exists x z col,
                   c = dd_vertex x (fst (renderExtent s)) z col
                   \/ c = dd_vertex x (snd (renderExtent s)) z col) lines.
Proof.
  unfold handleRender, renderExtent, drawnPoints, drawnEdges, drawnVertex.
  destruct (negb (m_currentVolumeId s =? 0)%N); cbn [fst snd].
  - exists (pointCalls (verts (m_editVolume s))).
    exists (edgeCalls (at_ (verts (m_editVolume s)))
              (length (verts (m_editVolume s)))
              (hmin (m_editVolume s)) (hmax (m_editVolume s))).
    split; [reflexivity|]. apply render_batches.
  - exists (pointCalls (m_pts s)).
    exists (edgeCalls (fun i => at_ (m_pts s) (nth i (m_hull s) 0))
              (length (m_hull s))
              (F32.sub (minHeight (m_pts s)) (m_boxDescent s))
              (F32.add (F32.sub (minHeight (m_pts s)) (m_boxDescent s))
                 (m_boxHeight s))).
    split; [reflexivity|].
    apply (render_batches (m_pts s)
             (fun i => at_ (m_pts s) (nth i (m_hull s) 0))).
Qed.

(** ** The plugin entry points *)

Section PluginFacts.

Variable MQ2NavigationPlugin : Type.
Variable newPlugin : MQ2NavigationPlugin.
Variable pluginOnPulse : MQ2NavigationPlugin -> MQ2NavigationPlugin.
Variable pluginOnBeginZone : MQ2NavigationPlugin -> MQ2NavigationPlugin.
Variable pluginOnEndZone : MQ2NavigationPlugin -> MQ2NavigationPlugin.
Variable pluginSetGameState :
  N -> MQ2NavigationPlugin -> MQ2NavigationPlugin.

Let call := pluginCall newPlugin pluginOnPulse pluginOnBeginZone
              pluginOnEndZone pluginSetGameState.

Let calls := pluginCalls newPlugin pluginOnPulse pluginOnBeginZone
               pluginOnEndZone pluginSetGameState.

Lemma pluginCall_loaded (c : PluginCall) (h : Host MQ2NavigationPlugin) :
  pluginLoaded (call c h)
  = match c with
    | InitializePlugin => true
    | ShutdownPlugin => false
    | _ => pluginLoaded h
    end.
Proof.
  destruct h as [[plugin|] output]; destruct c; reflexivity.
Qed.

(** X16: after any sequence of calls from the host, [g_mq2Nav] is set
    exactly when the last [InitializePlugin] or [ShutdownPlugin] among them
    was [InitializePlugin] (and is as before when there was neither):
    [OnPulse], [OnBeginZone], [OnEndZone] and [SetGameState] neither create
    nor destroy the plugin, and reach no plugin after [ShutdownPlugin]. *)
Theorem plugin_loaded_after (cs : list PluginCall)
    (h : Host MQ2NavigationPlugin) :
  pluginLoaded (calls cs h)
  = match lastLifecycle cs with
    | Some b => b
    | None => pluginLoaded h
    end.
Proof.
  revert h. induction cs as [|c cs IH]; intros h; [reflexivity|].
  unfold calls, pluginCalls in *. cbn [fold_left lastLifecycle].
  rewrite IH.
  destruct (lastLifecycle cs); [reflexivity|].
  pose proof (pluginCall_loaded c h) as Hc. unfold call in Hc.
  rewrite Hc. destruct c; reflexivity.
Qed.

End PluginFacts.

(** ** Two ways to commit *)

Section TwoCommits.

Variable tilesOf : NavMesh -> N -> list dtTileRef.
Variable rcOffsetPoly : list vec3 -> F32.float -> nat -> Z * list vec3.
Variable distSqr : vec3 -> vec3 -> F32.float.

(** X18: on a session in creation mode with a hull of more than 2 indices,
    the "Create Volume" button and a finalising click (with alt, or close
    to the last point) do the same to the session, the mesh and the rebuild
    requests; they differ in the mode they leave: the button leaves creation
    mode, the click stays in it. *)
Theorem commit_by_button_or_click
    (fuel : nat) (p : vec3) (alt : bool) (w : World) :
  w_editing w = true ->
  m_currentVolumeId (w_state w) = 0%N ->
  m_pts (w_state w) <> [] ->
  2 < length (m_hull (w_state w)) ->
  alt || F32.lt (distSqr p (last (m_pts (w_state w)) vec3_zero))
           closeTolerance = true ->
  exists byClick,
    handleClick tilesOf rcOffsetPoly distSqr fuel p false alt w
    = Some byClick
    /\ w_state byClick
       = w_state (handleMenu tilesOf rcOffsetPoly ClickCreateVolume w)
    /\ w_navMesh byClick
       = w_navMesh (handleMenu tilesOf rcOffsetPoly ClickCreateVolume w)
    /\ w_rebuilt byClick
       = w_rebuilt (handleMenu tilesOf rcOffsetPoly ClickCreateVolume w)
    /\ w_editing byClick = true
    /\ w_editing (handleMenu tilesOf rcOffsetPoly ClickCreateVolume w)
       = false.
Proof.
  intros He Hid Hp Hh Hfin.
  unfold handleClick, handleVolumeClick, handleMenu.
  rewrite Hid, He, Hfin. cbn [N.eqb negb andb].
  replace (0 <? length (m_pts (w_state w))) with true
    by (symmetry; apply Nat.ltb_lt; destruct (m_pts (w_state w));
        [congruence|cbn; lia]).
  replace (2 <? length (m_hull (w_state w))) with true
    by (symmetry; apply Nat.ltb_lt; exact Hh).
  cbn [andb].
  destruct (CreateShape tilesOf rcOffsetPoly (w_state w) (w_navMesh w))
    as [[s' nm'] tiles].
  eexists. split; [reflexivity|]. cbn. auto.
Qed.

End TwoCommits.

Lemma commit_by_button_or_click_witness :
  exists byClick,
    handleClick tileOfVolume offsetFails distSqr3 1 (pointZ 5 0 5) false true
      (mkWorld squarePicked true (mkNavMesh []) [])
    = Some byClick
    /\ w_state byClick
       = w_state (handleMenu tileOfVolume offsetFails ClickCreateVolume
                    (mkWorld squarePicked true (mkNavMesh []) []))
    /\ w_navMesh byClick
       = w_navMesh (handleMenu tileOfVolume offsetFails ClickCreateVolume
                      (mkWorld squarePicked true (mkNavMesh []) []))
    /\ w_rebuilt byClick
       = w_rebuilt (handleMenu tileOfVolume offsetFails ClickCreateVolume
                      (mkWorld squarePicked true (mkNavMesh []) []))
    /\ w_editing byClick = true
    /\ w_editing (handleMenu tileOfVolume offsetFails ClickCreateVolume
                    (mkWorld squarePicked true (mkNavMesh []) []))
       = false.
Proof.
  apply (commit_by_button_or_click tileOfVolume offsetFails distSqr3 1
           (pointZ 5 0 5) true
           (mkWorld squarePicked true (mkNavMesh []) [])).
  - reflexivity.
  - reflexivity.
  - discriminate.
  - cbn. lia.
  - reflexivity.
Defined.
